(** * The HTML sanitizer of the feed reader (src/content/sanitizer/sanitizer.go)

    A shallow embedding of [Sanitize] and of the helpers it calls, followed by
    the properties of the sanitizer that the specification states.

    Go strings are byte strings: they are embedded as [string] (a list of
    [ascii] bytes).  The output buffer is the string written so far, the
    open-tag stack a list, the blocked-subtree depth a Go [int]. *)

From stdpp Require Import base strings gmap list.
From Stdlib Require Import ZArith Ascii.

Open Scope string_scope.

(** ** The parts of the Go runtime and libraries that the sanitizer calls *)

Module Go.

(** The double-quote byte, and a value between two of them. *)
Definition dq : string := String "034"%char EmptyString.
Definition quoted (v : string) : string := dq ++ v ++ dq.

(** A Go [int] is a 64-bit two's complement integer. *)
Definition int_wrap (z : Z) : Z := ((z + 2 ^ 63) mod 2 ^ 64 - 2 ^ 63)%Z.

(** [strings.HasPrefix]. *)
Definition HasPrefix (s prefix : string) : bool := String.prefix prefix s.

(** [strings.Contains]. *)
Fixpoint Contains (s substr : string) : bool :=
  String.prefix substr s ||
  match s with
  | EmptyString => false
  | String _ rest => Contains rest substr
  end.

(** [strings.Join]. *)
Fixpoint Join (elems : list string) (sep : string) : string :=
  match elems with
  | [] => EmptyString
  | [e] => e
  | e :: rest => e ++ sep ++ Join rest sep
  end.

Definition consHead (c : ascii) (pieces : list string) : list string :=
  match pieces with
  | [] => [String c EmptyString]
  | p :: ps => String c p :: ps
  end.

(** [strings.Split(s, sep)] for a separator of one byte. *)
Fixpoint Split (s : string) (sep : ascii) : list string :=
  match s with
  | EmptyString => [EmptyString]
  | String c rest =>
      if Ascii.eqb c sep then EmptyString :: Split rest sep
      else consHead c (Split rest sep)
  end.

(** [strings.SplitN(s, sep, 2)] for a separator of one byte: the part before
    the first separator and, when there is one, the part after it. *)
Fixpoint SplitN2 (s : string) (sep : ascii) : list string :=
  match s with
  | EmptyString => [EmptyString]
  | String c rest =>
      if Ascii.eqb c sep then [EmptyString; rest]
      else consHead c (SplitN2 rest sep)
  end.

(** [unicode.IsSpace] on the UTF-8 encoding: the encodings of the code
    points with the White_Space property, by length. *)
Definition isSpace1 (a : ascii) : bool :=
  let n := nat_of_ascii a in
  (Nat.leb 9 n && Nat.leb n 13) || Nat.eqb n 32.

Definition isSpace2 (a b : ascii) : bool :=
  Nat.eqb (nat_of_ascii a) 194 &&
  (Nat.eqb (nat_of_ascii b) 133 || Nat.eqb (nat_of_ascii b) 160).

Definition isSpace3 (a b c : ascii) : bool :=
  let x := nat_of_ascii a in
  let y := nat_of_ascii b in
  let z := nat_of_ascii c in
  (Nat.eqb x 225 && Nat.eqb y 154 && Nat.eqb z 128) ||
  (Nat.eqb x 226 && Nat.eqb y 128 &&
     ((Nat.leb 128 z && Nat.leb z 138) || Nat.eqb z 168 || Nat.eqb z 169 ||
      Nat.eqb z 175)) ||
  (Nat.eqb x 226 && Nat.eqb y 129 && Nat.eqb z 159) ||
  (Nat.eqb x 227 && Nat.eqb y 128 && Nat.eqb z 128).

(** Drop the white space at the front of a list of bytes; [rev3] tells that
    the list is a reversed string, whose encodings read backwards. *)
Fixpoint trimFront (rev3 : bool) (l : list ascii) : list ascii :=
  match l with
  | a :: l1 =>
      if isSpace1 a then trimFront rev3 l1
      else
        match l1 with
        | b :: l2 =>
            if (if rev3 then isSpace2 b a else isSpace2 a b)
            then trimFront rev3 l2
            else
              match l2 with
              | c :: l3 =>
                  if (if rev3 then isSpace3 c b a else isSpace3 a b c)
                  then trimFront rev3 l3
                  else l
              | [] => l
              end
        | [] => l
        end
  | [] => []
  end.

(** [strings.TrimSpace]. *)
Definition TrimSpace (s : string) : string :=
  String.string_of_list_ascii
    (rev (trimFront true (rev (trimFront false (String.list_ascii_of_string s))))).

(** [html.EscapeString] of golang.org/x/net/html. *)
Definition escapeByte (c : ascii) : string :=
  if Ascii.eqb c "&" then "&amp;"
  else if Ascii.eqb c "'" then "&#39;"
  else if Ascii.eqb c "<" then "&lt;"
  else if Ascii.eqb c ">" then "&gt;"
  else if Ascii.eqb c "034" then "&#34;"
  else if Ascii.eqb c "013" then "&#13;"
  else String c EmptyString.

Fixpoint EscapeString (s : string) : string :=
  match s with
  | EmptyString => EmptyString
  | String c rest => escapeByte c ++ EscapeString rest
  end.

(** The class [\s] of Go regular expressions. *)
Definition isRegexpSpace (c : ascii) : bool :=
  Ascii.eqb c "009" || Ascii.eqb c "010" || Ascii.eqb c "012" ||
  Ascii.eqb c "013" || Ascii.eqb c " ".

Definition startsWithRegexpSpace (s : string) : bool :=
  match s with
  | String c _ => isRegexpSpace c
  | EmptyString => false
  end.

(** [regexp.MustCompile(`,\s+`).Split(s, -1)]: the pieces of [s] between the
    leftmost, longest matches of a comma and the white space after it.
    [inMatch] holds while the white space of a match is being read. *)
Fixpoint splitCommaSpaces (inMatch : bool) (s : string) : list string :=
  match s with
  | EmptyString => [EmptyString]
  | String c rest =>
      if inMatch && isRegexpSpace c then splitCommaSpaces true rest
      else if Ascii.eqb c "," && startsWithRegexpSpace rest
      then EmptyString :: splitCommaSpaces true rest
      else consHead c (splitCommaSpaces false rest)
  end.

End Go.

(** ** Tokens of golang.org/x/net/html *)

Inductive TokenType :=
| TextToken
| StartTagToken
| EndTagToken
| SelfClosingTagToken
| CommentToken
| DoctypeToken.

Record Attribute := mkAttribute { Namespace : string; Key : string; Val : string }.

Record Token := mkToken { Type_ : TokenType; Data : string; Attr : list Attribute }.

(** What [tokenizer.Err()] holds when [tokenizer.Next()] is an [ErrorToken]. *)
Inductive error := EOF | OtherError.

(** The run of a tokenizer over one input: the tokens that [Next] yields
    before its first [ErrorToken], and the error it then reports. *)
Record TokenStream := mkStream { tokens : list Token; err : error }.

(** The cross-token state of the loop of [Sanitize]. *)
Record State := mkState {
  buffer : string;
  tagStack : list string;
  parentTag : string;
  blacklistedTagDepth : Z
}.

Definition initial : State := mkState EmptyString [] EmptyString 0.

Definition WriteString (st : State) (s : string) : State :=
  mkState (buffer st ++ s) (tagStack st) (parentTag st) (blacklistedTagDepth st).

(** [set.has] of the allowlist tables. *)
Definition has (s : gset string) (key : string) : bool := bool_decide (key ∈ s).

(** ** sanitizer.go *)

Fixpoint inList (needle : string) (haystack : list string) : bool :=
  match haystack with
  | [] => false
  | element :: rest => if element =? needle then true else inList needle rest
  end.

Definition isBlockedTag (tagName : string) : bool :=
  let blacklist := ["noscript"; "script"; "style"] in
  (fix loop (l : list string) : bool :=
     match l with
     | [] => false
     | element :: rest => if element =? tagName then true else loop rest
     end) blacklist.

Definition isExternalResourceAttribute (attribute : string) : bool :=
  if attribute =? "src" then true
  else if attribute =? "href" then true
  else if attribute =? "poster" then true
  else if attribute =? "cite" then true
  else false.

Definition getExtraAttributes (tagName : string) : list string * list string :=
  if tagName =? "a" then
    (["rel"; "target"; "referrerpolicy"],
     ["rel=" ++ Go.quoted "noopener noreferrer";
      "target=" ++ Go.quoted "_blank";
      "referrerpolicy=" ++ Go.quoted "no-referrer"])
  else if (tagName =? "video") || (tagName =? "audio") then
    (["controls"], ["controls"])
  else if tagName =? "iframe" then
    (["sandbox"; "loading"],
     ["sandbox=" ++ Go.quoted "allow-scripts allow-same-origin allow-popups";
      "loading=" ++ Go.quoted "lazy"])
  else if tagName =? "img" then
    (["loading"], ["loading=" ++ Go.quoted "lazy"])
  else ([], []).

(** The map [elements] that [hasRequiredAttributes] builds, as the list of
    its entries in the order of the assignments.  The runtime enumerates a
    map in an order of its own: the loop below is over any list of entries,
    and [hasRequiredAttributes_any_order] shows that the order is
    immaterial. *)
Definition elements : list (string * list string) :=
  [("a", ["href"]); ("iframe", ["src"]); ("img", ["src"]);
   ("source", ["src"; "srcset"])].

(** [for _, attribute := range attributes { for _, attr := range attrs {...} }] *)
Fixpoint anyRequired (attrs attributes : list string) : bool :=
  match attributes with
  | [] => false
  | attribute :: rest =>
      if inList attribute attrs then true else anyRequired attrs rest
  end.

(** [for element, attrs := range elements], in the order [order] in which the
    runtime happens to enumerate the map. *)
Fixpoint hasRequiredAttributesIn (order : list (string * list string))
    (tagName : string) (attributes : list string) : bool :=
  match order with
  | [] => true
  | (element, attrs) :: rest =>
      if tagName =? element then anyRequired attrs attributes
      else hasRequiredAttributesIn rest tagName attributes
  end.

Definition hasRequiredAttributes (tagName : string) (attributes : list string) : bool :=
  hasRequiredAttributesIn elements tagName attributes.

Definition isBlockedResource (src : string) : bool :=
  let blacklist :=
    ["feedsportal.com"; "api.flattr.com"; "stats.wordpress.com";
     "plus.google.com/share"; "twitter.com/share"; "feeds.feedburner.com"] in
  (fix loop (l : list string) : bool :=
     match l with
     | [] => false
     | element :: rest => if Go.Contains src element then true else loop rest
     end) blacklist.

Definition dataAttributeAllowList : list string :=
  ["data:image/avif"; "data:image/apng"; "data:image/png"; "data:image/svg";
   "data:image/svg+xml"; "data:image/jpg"; "data:image/jpeg"; "data:image/gif";
   "data:image/webp"].

Fixpoint anyPrefix (value : string) (prefixes : list string) : bool :=
  match prefixes with
  | [] => false
  | prefix :: rest => if Go.HasPrefix value prefix then true else anyPrefix value rest
  end.

Definition isValidDataAttribute (value : string) : bool :=
  anyPrefix value dataAttributeAllowList.

Definition iframeWhitelist : list string :=
  ["bandcamp.com"; "cdn.embedly.com"; "invidio.us"; "player.bilibili.com";
   "player.vimeo.com"; "soundcloud.com"; "vk.com"; "w.soundcloud.com";
   "www.dailymotion.com"; "www.youtube-nocookie.com"; "www.youtube.com"].

Definition videoWhitelist : gmap string bool :=
  <["www.youtube.com" := true]>
    (<["www.youtube-nocookie.com" := true]>
       (<["www.dailymotion.com" := true]>
          (<["player.vimeo.com" := true]>
             (<["player.bilibili.com" := true]> ∅)))).

(** The table that [getTagAllowList] returns. *)
Definition getTagAllowList : gmap string (list string) :=
  list_to_map (rev
    [("img", ["alt"; "title"; "src"; "srcset"; "sizes"]); ("picture", []);
     ("audio", ["src"]); ("video", ["poster"; "height"; "width"; "src"]);
     ("source", ["src"; "type"; "srcset"; "sizes"; "media"]);
     ("dt", []); ("dd", []); ("dl", []); ("table", []); ("caption", []);
     ("thead", []); ("tfooter", []); ("tr", []);
     ("td", ["rowspan"; "colspan"]); ("th", ["rowspan"; "colspan"]);
     ("h1", []); ("h2", []); ("h3", []); ("h4", []); ("h5", []); ("h6", []);
     ("strong", []); ("em", []); ("code", []); ("pre", []); ("blockquote", []);
     ("q", ["cite"]); ("p", []); ("ul", []); ("li", []); ("ol", []); ("br", []);
     ("del", []); ("a", ["href"; "title"]); ("figure", []); ("figcaption", []);
     ("cite", []); ("time", ["datetime"]); ("abbr", ["title"]);
     ("acronym", ["title"]); ("wbr", []); ("dfn", []); ("sub", []); ("sup", []);
     ("var", []); ("samp", []); ("s", []); ("del", []); ("ins", []); ("kbd", []);
     ("rp", []); ("rt", []); ("rtc", []); ("ruby", []);
     ("iframe", ["width"; "height"; "frameborder"; "src"; "allowfullscreen"])]).

(** The allowlist tables of the package (allowlist.go), the URL helpers of
    package htmlutil and strconv.ParseFloat are not among the sources at
    hand: the sanitizer is embedded over any of them. *)
Class Policy := {
  allowedTags : gset string;
  allowedSvgTags : gset string;
  allowedSvgFilters : gset string;
  allowedAttrs : gmap string (gset string);
  allowedSvgAttrs : gset string;
  allowedURISchemes : gset string;
  (** [htmlutil.AbsoluteUrl(href, base)] and [htmlutil.URLDomain(val)]. *)
  AbsoluteUrl : string → string → string;
  URLDomain : string → string;
  (** Whether [strconv.ParseFloat(s, 32)] returns a nil error. *)
  ParseFloatOk : string → bool
}.

Section Sanitizer.

Context {policy : Policy}.

Definition isValidTag (tagName : string) : bool :=
  has allowedTags tagName || has allowedSvgTags tagName ||
  has allowedSvgFilters tagName.

Definition isValidAttribute (tagName attributeName : string) : bool :=
  match allowedAttrs !! tagName with
  | Some attrs => has attrs attributeName
  | None =>
      if has allowedSvgTags tagName then has allowedSvgAttrs attributeName
      else false
  end.

Definition hasValidURIScheme (src : string) : bool :=
  let scheme := nth 0 (Go.SplitN2 src ":") EmptyString in
  has allowedURISchemes scheme.

Definition isValidIframeSource (baseURL src : string) : bool :=
  let domain := URLDomain src in
  if URLDomain baseURL =? domain then true
  else
    (fix loop (l : list string) : bool :=
       match l with
       | [] => false
       | safeDomain :: rest => if safeDomain =? domain then true else loop rest
       end) iframeWhitelist.

Definition isValidWidthOrDensityDescriptor (value : string) : bool :=
  if value =? EmptyString then false
  else
    let lastChar := String.substring (String.length value - 1) 1 value in
    if negb (lastChar =? "w") && negb (lastChar =? "x") then false
    else ParseFloatOk (String.substring 0 (String.length value - 1) value).

(** The loop of [sanitizeSrcsetAttr] over [rawSources]. *)
Fixpoint srcsetLoop (baseURL : string) (rawSources sanitizedSources : list string)
    : list string :=
  match rawSources with
  | [] => sanitizedSources
  | rawSource :: rest =>
      let parts := Go.Split (Go.TrimSpace rawSource) " " in
      let nbParts := length parts in
      if Nat.ltb 0 nbParts then
        let part0 := nth 0 parts EmptyString in
        let finish (sanitizedSource : string) :=
          let sanitizedSource :=
            if Nat.eqb nbParts 2 &&
               isValidWidthOrDensityDescriptor (nth 1 parts EmptyString)
            then sanitizedSource ++ " " ++ nth 1 parts EmptyString
            else sanitizedSource in
          srcsetLoop baseURL rest (sanitizedSources ++ [sanitizedSource])%list in
        if negb (Go.HasPrefix part0 "data:") then
          let sanitizedSource := AbsoluteUrl part0 baseURL in
          if sanitizedSource =? EmptyString
          then srcsetLoop baseURL rest sanitizedSources
          else finish sanitizedSource
        else finish part0
      else srcsetLoop baseURL rest sanitizedSources
  end.

Definition sanitizeSrcsetAttr (baseURL value : string) : string :=
  let rawSources := Go.splitCommaSpaces false value in
  Go.Join (srcsetLoop baseURL rawSources []) ", ".

(** [fmt.Sprintf] of an attribute: the name, the equals sign and the escaped
    value between double quotes. *)
Definition formatAttribute (key value : string) : string :=
  key ++ "=" ++ Go.quoted (Go.EscapeString value).

(** The loop of [sanitizeAttributes] over [attributes]. *)
Fixpoint attributesLoop (baseURL tagName : string) (attributes : list Attribute)
    (htmlAttrs attrNames : list string) : list string * list string :=
  match attributes with
  | [] => (htmlAttrs, attrNames)
  | attribute :: rest =>
      let skip := attributesLoop baseURL tagName rest htmlAttrs attrNames in
      let keep (value : string) :=
        attributesLoop baseURL tagName rest
          (htmlAttrs ++ [formatAttribute (Key attribute) value])%list
          (attrNames ++ [Key attribute])%list in
      let value := Val attribute in
      if negb (isValidAttribute tagName (Key attribute)) then skip
      else
        let value :=
          if ((tagName =? "img") || (tagName =? "source")) &&
             (Key attribute =? "srcset")
          then sanitizeSrcsetAttr baseURL value else value in
        if isExternalResourceAttribute (Key attribute) then
          if tagName =? "iframe" then
            if isValidIframeSource baseURL (Val attribute)
            then keep (Val attribute) else skip
          else if (tagName =? "img") && (Key attribute =? "src") &&
                  isValidDataAttribute (Val attribute)
          then keep (Val attribute)
          else
            let value := AbsoluteUrl value baseURL in
            if value =? EmptyString then skip
            else if negb (hasValidURIScheme value) || isBlockedResource value
            then skip
            else keep value
        else keep value
  end.

Definition sanitizeAttributes (baseURL tagName : string)
    (attributes : list Attribute) : list string * string :=
  let '(htmlAttrs, attrNames) := attributesLoop baseURL tagName attributes [] [] in
  let '(extraAttrNames, extraHTMLAttributes) := getExtraAttributes tagName in
  let '(attrNames, htmlAttrs) :=
    if Nat.ltb 0 (length extraAttrNames)
    then ((attrNames ++ extraAttrNames)%list, (htmlAttrs ++ extraHTMLAttributes)%list)
    else (attrNames, htmlAttrs) in
  (attrNames, Go.Join htmlAttrs " ").

Fixpoint firstSrcDomain (attrs : list Attribute) : option string :=
  match attrs with
  | [] => None
  | attr :: rest =>
      if Key attr =? "src" then Some (URLDomain (Val attr))
      else firstSrcDomain rest
  end.

Definition isVideoIframe (token : Token) : bool :=
  if Data token =? "iframe" then
    match firstSrcDomain (Attr token) with
    | Some domain => default false (videoWhitelist !! domain)
    | None => false
    end
  else false.

Definition videoWrapperOpen : string := "<div class=" ++ Go.quoted "video-wrapper" ++ ">".

(** One pass through the body of the [for] loop of [Sanitize], for the
    token that [tokenizer.Token()] returned. *)
Definition step (baseURL : string) (st : State) (token : Token) : State :=
  match Type_ token with
  | TextToken =>
      if (0 <? blacklistedTagDepth st)%Z then st
      else if parentTag st =? "iframe" then st
      else WriteString st (Go.EscapeString (Data token))
  | StartTagToken =>
      let tagName := Data token in
      let st := mkState (buffer st) (tagStack st) tagName (blacklistedTagDepth st) in
      if isValidTag tagName then
        let '(attrNames, htmlAttributes) :=
          sanitizeAttributes baseURL tagName (Attr token) in
        if hasRequiredAttributes tagName attrNames then
          let wrap := isVideoIframe token in
          let st := if wrap then WriteString st videoWrapperOpen else st in
          let st :=
            if Nat.ltb 0 (length attrNames)
            then WriteString st ("<" ++ tagName ++ " " ++ htmlAttributes ++ ">")
            else WriteString st ("<" ++ tagName ++ ">") in
          if tagName =? "iframe" then
            let st := WriteString st "</iframe>" in
            if wrap then WriteString st "</div>" else st
          else
            mkState (buffer st) (tagStack st ++ [tagName])%list (parentTag st)
              (blacklistedTagDepth st)
        else st
      else if isBlockedTag tagName then
        mkState (buffer st) (tagStack st) (parentTag st)
          (Go.int_wrap (blacklistedTagDepth st + 1))
      else st
  | EndTagToken =>
      let tagName := Data token in
      if tagName =? "iframe" then st
      else if isValidTag tagName && inList tagName (tagStack st) then
        WriteString st ("</" ++ tagName ++ ">")
      else if isBlockedTag tagName then
        mkState (buffer st) (tagStack st) (parentTag st)
          (Go.int_wrap (blacklistedTagDepth st - 1))
      else st
  | SelfClosingTagToken =>
      let tagName := Data token in
      if isValidTag tagName then
        let '(attrNames, htmlAttributes) :=
          sanitizeAttributes baseURL tagName (Attr token) in
        if hasRequiredAttributes tagName attrNames then
          if Nat.ltb 0 (length attrNames)
          then WriteString st ("<" ++ tagName ++ " " ++ htmlAttributes ++ "/>")
          else WriteString st ("<" ++ tagName ++ "/>")
        else st
      else st
  | CommentToken | DoctypeToken => st
  end.

(** The [for] loop of [Sanitize]: the tokens are consumed one by one; at the
    [ErrorToken] the loop returns the buffer on [io.EOF], the empty string
    on any other error. *)
Fixpoint loop (baseURL : string) (st : State) (toks : list Token) (e : error)
    : string :=
  match toks with
  | [] =>
      match e with
      | EOF => buffer st
      | OtherError => EmptyString
      end
  | token :: rest => loop baseURL (step baseURL st token) rest e
  end.

Definition SanitizeTokens (baseURL : string) (input : TokenStream) : string :=
  loop baseURL initial (tokens input) (err input).

(** [html.NewTokenizer] over the input, as its run. *)
Variable tokenize : string → TokenStream.

Definition Sanitize (baseURL input : string) : string :=
  SanitizeTokens baseURL (tokenize input).

(** The state after the tokens [toks]. *)
Definition run (baseURL : string) (st : State) (toks : list Token) : State :=
  fold_left (step baseURL) toks st.

End Sanitizer.

(** ** A reference policy

    The tables and URL helpers that the package takes from files that are not
    among the sources, fixed to concrete values so that the sanitizer can be
    run on examples. *)

Module Reference.

(** Modelled from the spec: the tables of allowlist.go are missing.  The
    Tag Allowlist is the mapping from a tag name to its set of permitted
    attribute names; the mapping taken is the one that [getTagAllowList]
    builds, and the allowed tags are its keys.  The spec names no SVG tag,
    SVG filter or SVG attribute, and gives http, https and mailto as the
    permitted URL schemes. *)
Definition allowedAttrs : gmap string (gset string) :=
  list_to_set <$> getTagAllowList.
Definition allowedTags : gset string := dom getTagAllowList.
Definition allowedSvgTags : gset string := ∅.
Definition allowedSvgFilters : gset string := ∅.
Definition allowedSvgAttrs : gset string := ∅.
Definition allowedURISchemes : gset string :=
  list_to_set ["http"; "https"; "mailto"].

Definition isLetter (c : ascii) : bool :=
  let n := nat_of_ascii c in
  (Nat.leb 65 n && Nat.leb n 90) || (Nat.leb 97 n && Nat.leb n 122).

Definition isDigit (c : ascii) : bool :=
  let n := nat_of_ascii c in Nat.leb 48 n && Nat.leb n 57.

Definition isControl (c : ascii) : bool :=
  let n := nat_of_ascii c in Nat.ltb n 32 || Nat.eqb n 127.

Fixpoint hasControl (s : string) : bool :=
  match s with
  | EmptyString => false
  | String c rest => isControl c || hasControl rest
  end.

(** The scheme of a URL and what follows its colon, when the URL starts
    with a scheme: a letter, then letters, digits, plus, minus or dot. *)
Fixpoint splitScheme (first : bool) (s : string) : option (string * string) :=
  match s with
  | EmptyString => None
  | String c rest =>
      if negb first && Ascii.eqb c ":" then Some (EmptyString, rest)
      else if isLetter c ||
              (negb first &&
               (isDigit c || Ascii.eqb c "+" || Ascii.eqb c "-" || Ascii.eqb c "."))
      then
        match splitScheme false rest with
        | Some (scheme, after) => Some (String c scheme, after)
        | None => None
        end
      else None
  end.

(** The longest prefix without a byte of [stops], and the rest. *)
Fixpoint spanUntil (stops : ascii → bool) (s : string) : string * string :=
  match s with
  | EmptyString => (EmptyString, EmptyString)
  | String c rest =>
      if stops c then (EmptyString, s)
      else let '(p, r) := spanUntil stops rest in (String c p, r)
  end.

Definition endsAuthority (c : ascii) : bool :=
  Ascii.eqb c "/" || Ascii.eqb c "?" || Ascii.eqb c "#".

Definition endsPath (c : ascii) : bool := Ascii.eqb c "?" || Ascii.eqb c "#".

(** The authority and the path of what follows the scheme. *)
Definition authorityAndPath (afterScheme : string) : string * string :=
  match afterScheme with
  | String "/" (String "/" rest) =>
      let '(authority, r) := spanUntil endsAuthority rest in
      (authority, fst (spanUntil endsPath r))
  | _ => (EmptyString, fst (spanUntil endsPath afterScheme))
  end.

(** What follows the last at-sign of an authority, if it has one. *)
Fixpoint afterUserinfo (authority : string) : option string :=
  match authority with
  | EmptyString => None
  | String c rest =>
      match afterUserinfo rest with
      | Some h => Some h
      | None => if Ascii.eqb c "@" then Some rest else None
      end
  end.

(** Modelled from the spec: htmlutil.URLDomain is missing.  It extracts the
    host portion of a URL, used for the same-origin and the allowlist domain
    comparisons; a value that does not parse as a URL (here: one with a
    control byte) is its own domain. *)
Definition URLDomain (val : string) : string :=
  if hasControl val then val
  else
    let afterScheme :=
      match splitScheme true val with
      | Some (_, after) => after
      | None => val
      end in
    let authority := fst (authorityAndPath afterScheme) in
    default authority (afterUserinfo authority).

(** The directory of a path: the path up to its last slash. *)
Fixpoint dirOf (path : string) : string :=
  match path with
  | EmptyString => EmptyString
  | String c rest =>
      if Go.Contains rest "/" then String c (dirOf rest)
      else if Ascii.eqb c "/" then "/" else EmptyString
  end.

(** Modelled from the spec: htmlutil.AbsoluteUrl is missing.  It resolves a
    value against the base URL into an absolute URL and returns the empty
    string when the resolution fails (here: on a control byte).  A value
    with a scheme is absolute already; dot segments are left as they are. *)
Definition AbsoluteUrl (href base : string) : string :=
  if hasControl href then EmptyString
  else
    match splitScheme true href with
    | Some _ => href
    | None =>
        if hasControl base then EmptyString
        else
          match splitScheme true base with
          | None => href
          | Some (scheme, after) =>
              let '(authority, path) := authorityAndPath after in
              let origin :=
                scheme ++ ":" ++
                (if Go.HasPrefix after "//" then "//" ++ authority else EmptyString) in
              if href =? EmptyString then base
              else if Go.HasPrefix href "//" then scheme ++ ":" ++ href
              else if Go.HasPrefix href "/" then origin ++ href
              else if dirOf path =? EmptyString then origin ++ "/" ++ href
              else origin ++ dirOf path ++ href
          end
    end.

Fixpoint digitsAndDots (s : string) : nat * nat :=
  match s with
  | EmptyString => (0, 0)
  | String c rest =>
      let '(d, p) := digitsAndDots rest in
      if isDigit c then (S d, p)
      else if Ascii.eqb c "." then (d, S p)
      else (d, 2)
  end.

(** Modelled from the spec: whether a string parses as a floating-point
    number, for the decimal numbers without sign or exponent: digits with at
    most one dot among them. *)
Definition ParseFloatOk (s : string) : bool :=
  let '(d, p) := digitsAndDots s in Nat.ltb 0 d && Nat.leb p 1.

Definition policy : Policy :=
  Build_Policy allowedTags allowedSvgTags allowedSvgFilters allowedAttrs
    allowedSvgAttrs allowedURISchemes AbsoluteUrl URLDomain ParseFloatOk.

End Reference.

(** ** The tokenizer

    [html.NewTokenizer] belongs to golang.org/x/net/html.  The sanitizer is
    embedded over any tokenizer; the one below follows the library on markup
    made of text, comments, start, end and self-closing tags with quoted or
    unquoted attribute values and the character references that
    [html.EscapeString] produces, and on the raw text elements.  It never
    reports an error other than the end of the input, as the library never
    does on a buffer in memory.  The escaping rules inside script elements and
    the character references outside the list below are not part of it. *)

Module Tokenizer.

Import Reference.

Definition lowerByte (c : ascii) : ascii :=
  let n := nat_of_ascii c in
  if Nat.leb 65 n && Nat.leb n 90 then ascii_of_nat (n + 32) else c.

Fixpoint lower (s : string) : string :=
  match s with
  | EmptyString => EmptyString
  | String c rest => String (lowerByte c) (lower rest)
  end.

Definition entities : list (string * ascii) :=
  [("&amp;", "&"%char); ("&lt;", "<"%char); ("&gt;", ">"%char);
   ("&quot;", "034"%char); ("&#34;", "034"%char); ("&#39;", "'"%char);
   ("&#13;", "013"%char)].

Fixpoint matchEntity (s : string) (es : list (string * ascii)) : option (ascii * nat) :=
  match es with
  | [] => None
  | (name, c) :: rest =>
      if String.prefix name s then Some (c, String.length name - 1)
      else matchEntity s rest
  end.

(** [skip] counts the bytes of a character reference still to pass over. *)
Fixpoint unescapeFrom (skip : nat) (s : string) : string :=
  match s with
  | EmptyString => EmptyString
  | String c rest =>
      match skip with
      | S k => unescapeFrom k rest
      | O =>
          match matchEntity s entities with
          | Some (ch, n) => String ch (unescapeFrom n rest)
          | None => String c (unescapeFrom 0 rest)
          end
      end
  end.

Definition UnescapeString (s : string) : string := unescapeFrom 0 s.

Fixpoint convertNewlines (s : string) : string :=
  match s with
  | EmptyString => EmptyString
  | String c rest =>
      if Ascii.eqb c "013" then
        match rest with
        | String "010" _ => convertNewlines rest
        | _ => String "010" (convertNewlines rest)
        end
      else String c (convertNewlines rest)
  end.

Definition isTagSpace (c : ascii) : bool :=
  Ascii.eqb c " " || Ascii.eqb c "010" || Ascii.eqb c "013" ||
  Ascii.eqb c "009" || Ascii.eqb c "012".

Definition endsName (c : ascii) : bool :=
  isTagSpace c || Ascii.eqb c "/" || Ascii.eqb c ">".

Definition isQuote (c : ascii) : bool := Ascii.eqb c "034" || Ascii.eqb c "'".

Definition snoc (s : string) (c : ascii) : string := s ++ String c EmptyString.

Inductive TagState :=
| BeforeKey
| InKey (key : string)
| AfterKey (key : string)
| BeforeValue (key : string)
| InValue (key : string) (quote : option ascii) (val : string).

Definition attribute (key val : string) : Attribute :=
  mkAttribute EmptyString (lower key) (UnescapeString (convertNewlines val)).

(** The attributes of a tag, read byte by byte up to its closing angle
    bracket: the attributes, whether the byte before the bracket is a
    slash, and what follows the tag.  [None] when the input ends first. *)
Fixpoint readAttributes (state : TagState) (slash : bool) (attrs : list Attribute)
    (s : string) : option (list Attribute * bool * string) :=
  match s with
  | EmptyString => None
  | String c rest =>
      let isSlash := Ascii.eqb c "/" in
      match state with
      | BeforeKey =>
          if Ascii.eqb c ">" then Some (attrs, slash, rest)
          else if isTagSpace c || isSlash then readAttributes BeforeKey isSlash attrs rest
          else readAttributes (InKey (String c EmptyString)) false attrs rest
      | InKey key =>
          if Ascii.eqb c ">" then Some ((attrs ++ [attribute key EmptyString])%list, false, rest)
          else if isTagSpace c || isSlash then readAttributes (AfterKey key) isSlash attrs rest
          else if Ascii.eqb c "=" then readAttributes (BeforeValue key) false attrs rest
          else readAttributes (InKey (snoc key c)) false attrs rest
      | AfterKey key =>
          if isTagSpace c then readAttributes (AfterKey key) slash attrs rest
          else if Ascii.eqb c "=" then readAttributes (BeforeValue key) false attrs rest
          else
            let attrs := (attrs ++ [attribute key EmptyString])%list in
            if Ascii.eqb c ">" then Some (attrs, slash, rest)
            else if isSlash then readAttributes BeforeKey true attrs rest
            else readAttributes (InKey (String c EmptyString)) false attrs rest
      | BeforeValue key =>
          if isTagSpace c then readAttributes (BeforeValue key) false attrs rest
          else if isQuote c then readAttributes (InValue key (Some c) EmptyString) false attrs rest
          else if Ascii.eqb c ">"
          then Some ((attrs ++ [attribute key EmptyString])%list, false, rest)
          else readAttributes (InValue key None (String c EmptyString)) isSlash attrs rest
      | InValue key (Some q) val =>
          if Ascii.eqb c q
          then readAttributes BeforeKey false (attrs ++ [attribute key val])%list rest
          else readAttributes (InValue key (Some q) (snoc val c)) false attrs rest
      | InValue key None val =>
          if isTagSpace c
          then readAttributes BeforeKey false (attrs ++ [attribute key val])%list rest
          else if Ascii.eqb c ">"
          then Some ((attrs ++ [attribute key val])%list, slash, rest)
          else readAttributes (InValue key None (snoc val c)) isSlash attrs rest
      end
  end.

(** What follows the first occurrence of [sep], and what precedes it. *)
Fixpoint cut (sep : string) (s : string) : string * option string :=
  if String.prefix sep s
  then (EmptyString, Some (String.substring (String.length sep) (String.length s) s))
  else
    match s with
    | EmptyString => (EmptyString, None)
    | String c rest => let '(before, after) := cut sep rest in (String c before, after)
    end.

Definition startsWithLetter (s : string) : bool :=
  match s with
  | String c _ => isLetter c
  | EmptyString => false
  end.

(** Whether a less-than sign followed by [s] starts a tag, a comment or a
    declaration rather than being text. *)
Definition opensMarkup (s : string) : bool :=
  match s with
  | String c _ => isLetter c || Ascii.eqb c "/" || Ascii.eqb c "!" || Ascii.eqb c "?"
  | EmptyString => false
  end.

Fixpoint spanText (s : string) : string * string :=
  match s with
  | EmptyString => (EmptyString, EmptyString)
  | String c rest =>
      if Ascii.eqb c "<" && opensMarkup rest then (EmptyString, s)
      else let '(text, after) := spanText rest in (String c text, after)
  end.

Definition rawTags : list string :=
  ["iframe"; "noembed"; "noframes"; "noscript"; "plaintext"; "script"; "style";
   "textarea"; "title"; "xmp"].

(** Whether [s] starts with the end tag of the raw text element [rawTag]. *)
Definition closesRaw (rawTag s : string) : bool :=
  negb (rawTag =? "plaintext") &&
  String.prefix ("</" ++ rawTag) (lower s) &&
  match String.get (2 + String.length rawTag) s with
  | Some c => endsName c
  | None => false
  end.

Fixpoint spanRaw (rawTag s : string) : string * string :=
  match s with
  | EmptyString => (EmptyString, EmptyString)
  | String c rest =>
      if closesRaw rawTag s then (EmptyString, s)
      else let '(text, after) := spanRaw rawTag rest in (String c text, after)
  end.

Definition textToken (raw : bool) (text : string) : list Token :=
  if text =? EmptyString then []
  else
    let data := convertNewlines text in
    [mkToken TextToken (if raw then data else UnescapeString data) []].

Definition commentToken (ty : TokenType) (data : string) : Token := mkToken ty data [].

(** The tokens of [s]; [rawTag] is the raw text element that was just
    opened, if any.  Every token takes at least one byte, but for the empty
    text of a raw text element. *)
Fixpoint tokensFrom (fuel : nat) (rawTag s : string) : list Token :=
  match fuel with
  | O => []
  | S fuel =>
      match s with
      | EmptyString => []
      | String c rest =>
          if negb (rawTag =? EmptyString) then
            let '(text, after) := spanRaw rawTag s in
            let raw := negb ((rawTag =? "textarea") || (rawTag =? "title")) in
            (textToken raw text ++ tokensFrom fuel EmptyString after)%list
          else if Ascii.eqb c "<" && startsWithLetter rest then
            let '(name, afterName) := spanUntil endsName rest in
            match readAttributes BeforeKey false [] afterName with
            | None => []
            | Some (attrs, selfClosing, after) =>
                let name := lower name in
                mkToken (if selfClosing then SelfClosingTagToken else StartTagToken)
                  name attrs
                :: tokensFrom fuel (if inList name rawTags then name else EmptyString) after
            end
          else if Ascii.eqb c "<" && String.prefix "/" rest &&
                  startsWithLetter (String.substring 1 (String.length rest) rest) then
            let '(name, afterName) :=
              spanUntil endsName (String.substring 1 (String.length rest) rest) in
            match readAttributes BeforeKey false [] afterName with
            | None => []
            | Some (_, _, after) =>
                mkToken EndTagToken (lower name) [] :: tokensFrom fuel EmptyString after
            end
          else if Ascii.eqb c "<" && String.prefix "!--" rest then
            let '(data, after) :=
              cut "-->" (String.substring 3 (String.length rest) rest) in
            commentToken CommentToken data
            :: tokensFrom fuel EmptyString (default EmptyString after)
          else if Ascii.eqb c "<" && opensMarkup rest then
            let '(data, after) := cut ">" rest in
            commentToken
              (if String.prefix "!doctype" (lower rest) then DoctypeToken else CommentToken)
              data
            :: tokensFrom fuel EmptyString (default EmptyString after)
          else
            let '(text, after) := spanText rest in
            (textToken false (String c text) ++ tokensFrom fuel EmptyString after)%list
      end
  end.

Definition tokenize (input : string) : TokenStream :=
  mkStream (tokensFrom (2 * String.length input + 1) EmptyString input) EOF.

End Tokenizer.

(** A token of type [ty] with the data [data] and the attributes [attrs],
    given as pairs of a key and a value. *)
Definition tok (ty : TokenType) (data : string) (attrs : list (string * string)) : Token :=
  mkToken ty data (map (λ kv, mkAttribute EmptyString (fst kv) (snd kv)) attrs).

(** ** Definitions used to state the properties *)


Definition isStartTag (token : Token) : bool :=
  match Type_ token with
  | StartTagToken => true
  | _ => false
  end.

(** The tags that the spec drops for want of an attribute: [a] without
    [href], [iframe] and [img] without [src], [source] without [src] and
    without [srcset], among the names [names] of the surviving attributes. *)
Definition lacksRequired (tagName : string) (names : list string) : Prop :=
  (tagName = "a" ∧ "href" ∉ names) ∨
  (tagName = "iframe" ∧ "src" ∉ names) ∨
  (tagName = "img" ∧ "src" ∉ names) ∨
  (tagName = "source" ∧ ("src" ∉ names) ∧ ("srcset" ∉ names)).

(** The last byte of a string and what precedes it. *)
Fixpoint unsnoc (s : string) : option (string * ascii) :=
  match s with
  | EmptyString => None
  | String c rest =>
      match unsnoc rest with
      | None => Some (EmptyString, c)
      | Some (front, last) => Some (String c front, last)
      end
  end.

Section SrcsetSpec.

Context {policy : Policy}.

(** The srcset algorithm in the words of the spec.  A descriptor is kept
    when it is not empty, ends in [w] or [x], and what precedes that byte
    parses as a floating-point number. *)
Definition descriptorIsKept (descriptor : string) : bool :=
  match unsnoc descriptor with
  | None => false
  | Some (number, unit) =>
      (Ascii.eqb unit "w" || Ascii.eqb unit "x") && ParseFloatOk number
  end.

(** The URL part is kept verbatim when it starts with [data:], resolved
    against the base URL otherwise; the candidate is dropped when the
    resolution fails. *)
Definition candidateURL (baseURL url : string) : option string :=
  if String.prefix "data:" url then Some url
  else
    let resolved := AbsoluteUrl url baseURL in
    if resolved =? EmptyString then None else Some resolved.

(** A candidate is its URL part, then, when it has exactly one space, its
    descriptor part. *)
Definition rewriteCandidate (baseURL candidate : string) : option string :=
  match Go.Split (Go.TrimSpace candidate) " " with
  | [] => None
  | [url; descriptor] =>
      option_map
        (λ u, if descriptorIsKept descriptor then u ++ " " ++ descriptor else u)
        (candidateURL baseURL url)
  | url :: _ => candidateURL baseURL url
  end.

End SrcsetSpec.

(** A byte string without a less-than sign. *)
Fixpoint noLt (s : string) : bool :=
  match s with
  | EmptyString => true
  | String c rest => negb (Ascii.eqb c "<") && noLt rest
  end.

(** [s] differs from [pattern] at a position that both have, so that no
    string that starts with [s] starts with [pattern]. *)
Fixpoint diverges (pattern s : string) : bool :=
  match pattern, s with
  | String p pattern', String c s' =>
      if Ascii.eqb p c then diverges pattern' s' else true
  | _, _ => false
  end.

Definition blockedNames : list string := ["script"; "style"; "noscript"].

Definition divergesFromBlocked (s : string) : bool :=
  forallb (λ name, diverges name s) blockedNames.

(** After each less-than sign of [s] come bytes that rule out the name of a
    blocked tag, whatever is appended to [s]. *)
Fixpoint clean (s : string) : bool :=
  match s with
  | EmptyString => true
  | String c rest =>
      (if Ascii.eqb c "<" then divergesFromBlocked rest else true) && clean rest
  end.

Fixpoint occurs (c : ascii) (s : string) : bool :=
  match s with
  | EmptyString => false
  | String x rest => Ascii.eqb x c || occurs c rest
  end.

(** A tag name without a less-than sign that does not start with the name of
    a blocked tag. *)
Definition tagNameSafe (tagName : string) : bool :=
  noLt tagName && forallb (λ name, negb (String.prefix name tagName)) blockedNames.

(** The allowlists hold plain names: no name of an allowed tag or attribute
    has a less-than sign, and no allowed tag name starts with the name of a
    blocked tag. *)
Definition safeNames (policy : Policy) : Prop :=
  set_Forall (λ tagName, tagNameSafe tagName = true)
    (allowedTags ∪ allowedSvgTags ∪ allowedSvgFilters) ∧
  map_Forall (λ _ attrs, set_Forall (λ name, noLt name = true) attrs) allowedAttrs ∧
  set_Forall (λ name, noLt name = true) allowedSvgAttrs.

Section AttributeSpec.

Context {policy : Policy}.

(** The value with which one source attribute of a tag is emitted, when it
    is emitted at all: the decision that the body of the loop of
    [sanitizeAttributes] takes. *)
Definition survivingValue (baseURL tagName : string) (attribute : Attribute)
    : option string :=
  if isValidAttribute tagName (Key attribute) then
    let value :=
      if ((tagName =? "img") || (tagName =? "source")) &&
         (Key attribute =? "srcset")
      then sanitizeSrcsetAttr baseURL (Val attribute) else Val attribute in
    if isExternalResourceAttribute (Key attribute) then
      if tagName =? "iframe" then
        if isValidIframeSource baseURL (Val attribute)
        then Some (Val attribute) else None
      else if (tagName =? "img") && (Key attribute =? "src") &&
              isValidDataAttribute (Val attribute)
      then Some (Val attribute)
      else
        let resolved := AbsoluteUrl value baseURL in
        if resolved =? EmptyString then None
        else if hasValidURIScheme resolved && negb (isBlockedResource resolved)
        then Some resolved else None
    else Some value
  else None.

(** The source attributes that survive, each with the value it is emitted
    with, in source order. *)
Definition survivors (baseURL tagName : string) (attributes : list Attribute)
    : list (string * string) :=
  omap (λ attribute,
          option_map (λ value, (Key attribute, value))
            (survivingValue baseURL tagName attribute))
    attributes.

End AttributeSpec.

(** The injected attributes of a tag as a tokenizer reads them back from the
    markup that [getExtraAttributes] gives. *)
Definition injectedAttributes (tagName : string) : list Attribute :=
  if tagName =? "a" then
    [mkAttribute EmptyString "rel" "noopener noreferrer";
     mkAttribute EmptyString "target" "_blank";
     mkAttribute EmptyString "referrerpolicy" "no-referrer"]
  else if (tagName =? "video") || (tagName =? "audio") then
    [mkAttribute EmptyString "controls" EmptyString]
  else if tagName =? "iframe" then
    [mkAttribute EmptyString "sandbox" "allow-scripts allow-same-origin allow-popups";
     mkAttribute EmptyString "loading" "lazy"]
  else if tagName =? "img" then
    [mkAttribute EmptyString "loading" "lazy"]
  else [].

(** A token that the loop passes over: a comment, a doctype, the end tag
    of an iframe or of a tag that is neither allowed nor blocked, a
    self-closing tag that is not allowed. *)
Definition inert {policy : Policy} (token : Token) : bool :=
  match Type_ token with
  | CommentToken | DoctypeToken => true
  | EndTagToken =>
      (Data token =? "iframe") ||
      (negb (isValidTag (Data token)) && negb (isBlockedTag (Data token)))
  | SelfClosingTagToken => negb (isValidTag (Data token))
  | TextToken | StartTagToken => false
  end.

(** The fragments that [isBlockedResource] looks for. *)
Definition blockedFragments : list string :=
  ["feedsportal.com"; "api.flattr.com"; "stats.wordpress.com";
   "plus.google.com/share"; "twitter.com/share"; "feeds.feedburner.com"].

(** The bytes that end text or an attribute value in markup: the angle
    brackets, the quotes and the carriage return. *)
Definition isMarkupByte (c : ascii) : bool :=
  Ascii.eqb c "'" || Ascii.eqb c "<" || Ascii.eqb c ">" ||
  Ascii.eqb c "034" || Ascii.eqb c "013".

Fixpoint noMarkup (s : string) : bool :=
  match s with
  | EmptyString => true
  | String c rest => negb (isMarkupByte c) && noMarkup rest
  end.

(** Whether [s] has a comma followed by white space, a match of the
    expression that splits a srcset. *)
Fixpoint hasCommaSpace (s : string) : bool :=
  match s with
  | EmptyString => false
  | String c rest =>
      (Ascii.eqb c "," && Go.startsWithRegexpSpace rest) || hasCommaSpace rest
  end.

(** *** The srcset value, candidate by candidate

    What splitting, trimming and joining mean, said without the functions
    of the runtime. *)

(** The bytes of a string. *)
Definition bytes (s : string) : list ascii := String.list_ascii_of_string s.

(** The bytes of the class [\s] of the regular expression: tab, line feed,
    form feed, carriage return and space. *)
Definition regexpWhite : list ascii := ["009"; "010"; "012"; "013"; " "]%char.

(** One or more bytes of the class [\s]. *)
Inductive whiteRun : string → Prop :=
| whiteRun_one c : c ∈ regexpWhite → whiteRun (String c EmptyString)
| whiteRun_more c s : c ∈ regexpWhite → whiteRun s → whiteRun (String c s).

(** No comma of [piece] is followed by a byte of the class [\s]. *)
Definition noSeparator (piece : string) : Prop :=
  ∀ before c after, piece = before ++ String "," (String c after) → c ∉ regexpWhite.

Definition startsWhite (s : string) : Prop :=
  ∃ c rest, s = String c rest ∧ c ∈ regexpWhite.

(** [value] is its [pieces] with a separator between each two of them; a
    separator is a comma and all the bytes of the class [\s] that follow
    it, at least one, and no piece has a separator in it. *)
Inductive splitsInto : string → list string → Prop :=
| splits_last piece : noSeparator piece → splitsInto piece [piece]
| splits_more piece white rest pieces :
    noSeparator piece → whiteRun white → ¬ startsWhite rest →
    splitsInto rest pieces →
    splitsInto (piece ++ "," ++ white ++ rest) (piece :: pieces).

(** The UTF-8 encodings of the code points with the White_Space property:
    U+0009 to U+000D, U+0020, U+0085, U+00A0, U+1680, U+2000 to U+200A,
    U+2028, U+2029, U+202F, U+205F and U+3000. *)
Definition whiteSpace : list (list ascii) :=
  [["009"]; ["010"]; ["011"]; ["012"]; ["013"]; [" "];
   ["194"; "133"]; ["194"; "160"];
   ["225"; "154"; "128"];
   ["226"; "128"; "128"]; ["226"; "128"; "129"]; ["226"; "128"; "130"];
   ["226"; "128"; "131"]; ["226"; "128"; "132"]; ["226"; "128"; "133"];
   ["226"; "128"; "134"]; ["226"; "128"; "135"]; ["226"; "128"; "136"];
   ["226"; "128"; "137"]; ["226"; "128"; "138"];
   ["226"; "128"; "168"]; ["226"; "128"; "169"]; ["226"; "128"; "175"];
   ["226"; "129"; "159"];
   ["227"; "128"; "128"]]%char.

(** The byte strings made of elements of [words], one after the other. *)
Inductive concatOf (words : list (list ascii)) : list ascii → Prop :=
| concatOf_nil : concatOf words []
| concatOf_app w l : w ∈ words → concatOf words l → concatOf words (w ++ l).

(** [core] is [candidate] without the white space around it: what is left
    and right of it is white space, and it neither starts nor ends with
    white space. *)
Definition trimmed (candidate core : string) : Prop :=
  ∃ lead trail,
    bytes candidate = (lead ++ bytes core ++ trail)%list ∧
    concatOf whiteSpace lead ∧ concatOf whiteSpace trail ∧
    (∀ w, w ∈ whiteSpace → ¬ w `prefix_of` bytes core) ∧
    (∀ w, w ∈ whiteSpace → ¬ w `suffix_of` bytes core).

(** [parts] are the parts of the trimmed [candidate] between its spaces:
    they have no space, and with one space between each two of them they
    give the trimmed candidate. *)
Definition candidateParts (candidate : string) (parts : list string) : Prop :=
  ∃ core,
    trimmed candidate core ∧
    parts ≠ [] ∧
    String.concat " " parts = core ∧
    Forall (λ part, " "%char ∉ bytes part) parts.

Section SrcsetCandidates.

Context {policy : Policy}.

(** What is kept of a candidate with the parts [parts]: nothing when the
    URL part does not resolve; else the URL, followed by the descriptor
    when the candidate has exactly two parts and the second is a valid
    descriptor; with three parts or more, the URL alone. *)
Definition keptCandidate (baseURL : string) (parts : list string) : option string :=
  match parts with
  | [] => None
  | [url; descriptor] =>
      option_map
        (λ u, if descriptorIsKept descriptor then u ++ " " ++ descriptor else u)
        (candidateURL baseURL url)
  | url :: _ => candidateURL baseURL url
  end.

End SrcsetCandidates.

(** Whether a list of bytes starts with white space as [Go.trimFront]
    looks for it: read forwards or, for a reversed string, backwards. *)
Definition startsWithSpace (rev3 : bool) (l : list ascii) : bool :=
  match l with
  | a :: l1 =>
      Go.isSpace1 a ||
      match l1 with
      | b :: l2 =>
          (if rev3 then Go.isSpace2 b a else Go.isSpace2 a b) ||
          match l2 with
          | c :: _ => if rev3 then Go.isSpace3 c b a else Go.isSpace3 a b c
          | [] => false
          end
      | [] => false
      end
  | [] => false
  end.

(** An encoding as the trimming of a reversed string meets it. *)
Definition facing (rev3 : bool) (w : list ascii) : list ascii :=
  if rev3 then rev w else w.

(** *** A second pass over the output

    What the loop writes, as the tokens that a tokenizer reads back. *)

(** An attribute as a tokenizer reads it: a key and a value, no name space. *)
Definition attributeOf (kv : string * string) : Attribute :=
  mkAttribute EmptyString kv.1 kv.2.

Section SecondPass.

Context {policy : Policy}.

(** Whether the loop writes the tag of a start-tag or self-closing token:
    its name is allowed and it has the attributes it needs. *)
Definition kept (baseURL : string) (token : Token) : bool :=
  isValidTag (Data token) &&
  hasRequiredAttributes (Data token)
    (sanitizeAttributes baseURL (Data token) (Attr token)).1.

(** The markup of a kept tag up to the bytes [close] that end it. *)
Definition openTag (baseURL : string) (token : Token) (close : string) : string :=
  let '(attrNames, htmlAttributes) :=
    sanitizeAttributes baseURL (Data token) (Attr token) in
  if Nat.ltb 0 (length attrNames)
  then "<" ++ Data token ++ " " ++ htmlAttributes ++ close
  else "<" ++ Data token ++ close.

(** A kept tag as a token: the surviving attributes with the values they
    are written with, then the injected ones. *)
Definition writtenTag (baseURL : string) (token : Token) : Token :=
  mkToken (Type_ token) (Data token)
    (map attributeOf (survivors baseURL (Data token) (Attr token)) ++
     injectedAttributes (Data token)).

(** What the loop writes for a token, as tokens: the text, the kept tag,
    for an iframe its end tag and around a video iframe the wrapper, the
    end tag of an open tag. *)
Definition written (baseURL : string) (st : State) (token : Token) : list Token :=
  match Type_ token with
  | TextToken =>
      if (0 <? blacklistedTagDepth st)%Z then []
      else if parentTag st =? "iframe" then []
      else [mkToken TextToken (Data token) []]
  | StartTagToken =>
      if kept baseURL token then
        if Data token =? "iframe" then
          let frame := [writtenTag baseURL token; mkToken EndTagToken "iframe" []] in
          if isVideoIframe token then
            (mkToken StartTagToken "div"
               [mkAttribute EmptyString "class" "video-wrapper"] :: frame) ++
            [mkToken EndTagToken "div" []]
          else frame
        else [writtenTag baseURL token]
      else []
  | EndTagToken =>
      if Data token =? "iframe" then []
      else if isValidTag (Data token) && inList (Data token) (tagStack st)
      then [mkToken EndTagToken (Data token) []]
      else []
  | SelfClosingTagToken =>
      if kept baseURL token then [writtenTag baseURL token] else []
  | CommentToken | DoctypeToken => []
  end.

(** What the loop writes for a stream, as tokens. *)
Fixpoint writtenTokens (baseURL : string) (st : State) (toks : list Token)
    : list Token :=
  match toks with
  | [] => []
  | token :: rest =>
      written baseURL st token ++ writtenTokens baseURL (step baseURL st token) rest
  end.

(** A second pass over the attribute gives its value back. *)
Definition stable (baseURL tagName : string) (kv : string * string) : bool :=
  bool_decide (survivingValue baseURL tagName (attributeOf kv) = Some kv.2).

(** A token whose tag, when it is kept, is written with attribute values
    that a second pass leaves as they are; a start tag is moreover a video
    iframe by the attributes written exactly when it is one by its own,
    and then [div], the tag of the wrapper, is not an allowed tag. *)
Definition resanitizable (baseURL : string) (token : Token) : bool :=
  match Type_ token with
  | StartTagToken | SelfClosingTagToken =>
      if kept baseURL token then
        forallb (stable baseURL (Data token))
          (survivors baseURL (Data token) (Attr token)) &&
        (negb (isStartTag token) ||
         Bool.eqb (isVideoIframe (writtenTag baseURL token)) (isVideoIframe token) &&
         (negb (isVideoIframe token) || negb (isValidTag "div")))
      else true
  | _ => true
  end.

End SecondPass.

(** A tokenizer gives the text between two tags as one token: the stream
    with each run of text tokens merged into one. *)
Fixpoint mergeText (toks : list Token) : list Token :=
  match toks with
  | [] => []
  | token :: rest =>
      match Type_ token with
      | TextToken =>
          match mergeText rest with
          | next :: more =>
              match Type_ next with
              | TextToken =>
                  mkToken TextToken (Data token ++ Data next) [] :: more
              | _ => mkToken TextToken (Data token) [] :: next :: more
              end
          | [] => [mkToken TextToken (Data token) []]
          end
      | _ => token :: mergeText rest
      end
  end.

(** Whether a text token comes after the start tag of an iframe with no
    start tag in between; [parent] is the most recent start tag so far. *)
Fixpoint textFollowsIframe (parent : string) (toks : list Token) : bool :=
  match toks with
  | [] => false
  | token :: rest =>
      match Type_ token with
      | TextToken => (parent =? "iframe") || textFollowsIframe parent rest
      | StartTagToken => textFollowsIframe (Data token) rest
      | _ => textFollowsIframe parent rest
      end
  end.

(** The states of a second pass agree with those of the first on what was
    written and on the open tags, and are outside any blocked subtree. *)
Definition agree (first second : State) : Prop :=
  buffer second = buffer first ∧ tagStack second = tagStack first ∧
  blacklistedTagDepth second = 0%Z.

(** ** The authentication middleware (src/server/auth/middleware.go) *)

Module Auth.

Record Middleware := mkMiddleware {
  Username : string;
  Password : string;
  BasePath : string;
  Public : string
}.

(** What the handler reads of [c.Req]: the path of the URL, the method, the
    form values and the cookies. *)
Record Request := mkRequest {
  Path : string;
  Method : string;
  FormValue : string → string;
  Cookie : string → option string
}.

(** What the handler does with the context: [c.Next()],
    [c.Out.WriteHeader(status)], [Authenticate(c.Out, ...)],
    [c.Redirect(url)] and [c.HTML(status, template, data)], where [data] is
    a map or nil. *)
Inductive Effect :=
| Next
| WriteHeader (status : nat)
| Authenticate (username password basePath : string)
| Redirect (url : string)
| HTML (status : nat) (template : string) (data : option (gmap string string)).

Definition StatusOK : nat := 200.
Definition StatusUnauthorized : nat := 401.

Definition unsafeMethod (method : string) : bool :=
  (method =? "POST") || (method =? "PUT") || (method =? "DELETE").

Section Handler.

(** [IsAuthenticated] and [StringsEqual] belong to a file of the package
    that is not among the sources: the handler is embedded over any of
    them. *)
Variable IsAuthenticated : Request → string → string → bool.
Variable StringsEqual : string → string → bool.

(** [Handler], as the calls it makes on the context, in order. *)
Definition Handler (m : Middleware) (req : Request) : list Effect :=
  if Go.HasPrefix (Path req) (BasePath m ++ Public m) then [Next]
  else if IsAuthenticated req (Username m) (Password m) then [Next]
  else
    let rootUrl := BasePath m ++ "/" in
    if negb (Path req =? rootUrl) then [WriteHeader StatusUnauthorized]
    else if Method req =? "POST" then
      let username := FormValue req "username" in
      let password := FormValue req "password" in
      if StringsEqual username (Username m) && StringsEqual password (Password m)
      then [Authenticate (Username m) (Password m) (BasePath m); Redirect rootUrl]
      else
        [HTML StatusOK "login.html"
           (Some (<["error" := "Invalid username/password"]>
                    (<["username" := username]> ∅)))]
    else [HTML StatusOK "login.html" None].

End Handler.

End Auth.

(** * Properties of the sanitizer *)

(** ** Byte strings *)

Lemma append_cons (x : ascii) (a b : string) : String x a ++ b = String x (a ++ b).
Proof. reflexivity. Qed.

Lemma append_nil_l (a : string) : EmptyString ++ a = a.
Proof. reflexivity. Qed.

Lemma append_assoc (a b c : string) : (a ++ b) ++ c = a ++ (b ++ c).
Proof. induction a as [|x a IH]; [done|]. by rewrite !append_cons, IH. Qed.

Lemma append_nil_r (a : string) : a ++ EmptyString = a.
Proof. induction a as [|x a IH]; [done|]. by rewrite append_cons, IH. Qed.

(** [strings.Split] yields at least one piece, and joining the pieces with
    the separator gives the string back. *)
Lemma Split_cons (s : string) (sep : ascii) :
  ∃ piece pieces, Go.Split s sep = piece :: pieces.
Proof.
  induction s as [|c s (piece & pieces & IH)]; simpl; [by eauto|].
  destruct (Ascii.eqb c sep); [by eauto|]. rewrite IH. simpl. by eauto.
Qed.

Lemma Join_cons (e e' : string) (elems : list string) (sep : string) :
  Go.Join (e :: e' :: elems) sep = e ++ sep ++ Go.Join (e' :: elems) sep.
Proof. reflexivity. Qed.

Lemma Join_Split (s : string) (sep : ascii) :
  Go.Join (Go.Split s sep) (String sep EmptyString) = s.
Proof.
  induction s as [|c s IH]; [done|]. simpl.
  destruct (Split_cons s sep) as (piece & pieces & Hsplit).
  rewrite Hsplit in *.
  destruct (Ascii.eqb_spec c sep) as [->|_].
  - by rewrite Join_cons, IH.
  - cbn [Go.consHead]. destruct pieces as [|piece' pieces].
    + cbn [Go.Join] in *. by rewrite IH.
    + rewrite Join_cons in *. by rewrite append_cons, IH.
Qed.

Lemma inList_elem_of (needle : string) (haystack : list string) :
  inList needle haystack = true ↔ needle ∈ haystack.
Proof.
  induction haystack as [|e l IH]; simpl.
  - split; [done|]. by intros ?%elem_of_nil.
  - rewrite elem_of_cons. destruct (String.eqb_spec e needle) as [->|Hne].
    + split; auto.
    + rewrite IH. split; [auto|]. intros [->|]; done.
Qed.

(** Case analysis on the tag names that a goal compares [tagName] with. *)
Ltac case_tag_name tagName :=
  repeat
    match goal with
    | |- context [String.eqb tagName ?name] =>
        destruct (String.eqb_spec tagName name) as [->|?]
    end.

(** ** Required attributes *)

Lemma anyRequired_false (attrs names : list string) :
  anyRequired attrs names = false ↔ ∀ a, a ∈ attrs → a ∉ names.
Proof.
  induction names as [|n names IH]; simpl.
  - split; [|done]. intros _ a _. apply not_elem_of_nil.
  - destruct (inList n attrs) eqn:Hin.
    + split; [done|]. intros Hall. apply inList_elem_of in Hin.
      exfalso. apply (Hall n Hin). left.
    + rewrite IH. split.
      * intros Hall a Ha [->|Hn]%elem_of_cons; [|by apply (Hall a)].
        apply inList_elem_of in Ha. congruence.
      * intros Hall a Ha Hn. apply (Hall a Ha). by right.
Qed.

(** The loop over the map finds the entry of the tag, if there is one. *)
Lemma hasRequiredAttributesIn_lookup (order : list (string * list string))
    (tagName : string) (names : list string) :
  NoDup order.*1 →
  hasRequiredAttributesIn order tagName names =
    match (list_to_map order : gmap string (list string)) !! tagName with
    | Some attrs => anyRequired attrs names
    | None => true
    end.
Proof.
  induction order as [|[element attrs] order IH]; intros Hnodup; [done|].
  apply NoDup_cons in Hnodup as [Hfresh Hnodup]. simpl.
  destruct (String.eqb_spec tagName element) as [->|Hne].
  - by rewrite lookup_insert_eq.
  - rewrite lookup_insert_ne by done. by apply IH.
Qed.

(** The order in which the runtime enumerates the map does not matter. *)
Lemma hasRequiredAttributes_any_order (order : list (string * list string))
    (tagName : string) (names : list string) :
  order ≡ₚ elements →
  hasRequiredAttributesIn order tagName names = hasRequiredAttributes tagName names.
Proof.
  intros Hperm. unfold hasRequiredAttributes.
  assert (NoDup elements.*1) as Hnodup by compute_done.
  rewrite !hasRequiredAttributesIn_lookup; [|done|by rewrite Hperm].
  by rewrite (list_to_map_proper _ _ Hnodup (symmetry Hperm)).
Qed.

Lemma hasRequiredAttributes_false (tagName : string) (names : list string) :
  hasRequiredAttributes tagName names = false ↔ lacksRequired tagName names.
Proof.
  unfold hasRequiredAttributes, lacksRequired, elements. simpl.
  case_tag_name tagName.
  all: rewrite ?anyRequired_false; set_unfold.
  all: split; [intros Hall|intros Hcases].
  all: try (destruct Hcases as [[? ?]|[[? ?]|[[? ?]|(? & ? & ?)]]];
            try discriminate; try congruence; intros a0 Ha;
            intuition (subst; tauto)).
  - left. split; [exact I|]. apply Hall. by left.
  - right; left. split; [exact I|]. apply Hall. by left.
  - right; right; left. split; [exact I|]. apply Hall. by left.
  - right; right; right.
    split_and!; [exact I|apply Hall; by left|apply Hall; by right; left].
  - discriminate Hall.
Qed.

(** ** Srcset rewriting *)

Lemma unsnoc_None (s : string) : unsnoc s = None ↔ s = EmptyString.
Proof.
  destruct s as [|c rest]; simpl; [done|].
  split; [|done]. by destruct (unsnoc rest) as [[front last]|].
Qed.

(** The slices that [isValidWidthOrDensityDescriptor] takes of its argument
    are its last byte and what precedes it. *)
Lemma unsnoc_substring (s front : string) (last : ascii) :
  unsnoc s = Some (front, last) →
  String.length s = S (String.length front) ∧
  String.substring (String.length front) 1 s = String last EmptyString ∧
  String.substring 0 (String.length front) s = front.
Proof.
  revert front. induction s as [|c rest IH]; intros front Hs; [done|].
  simpl in Hs. destruct (unsnoc rest) as [[front' last']|] eqn:Hrest.
  - injection Hs as <- <-. destruct (IH front' eq_refl) as (Hlen & Hlast & Hfront).
    simpl. by rewrite Hlen, Hlast, Hfront.
  - injection Hs as <- <-. apply unsnoc_None in Hrest as ->. done.
Qed.

Section Srcset.

Context {policy : Policy}.

Lemma isValidWidthOrDensityDescriptor_spec (value : string) :
  isValidWidthOrDensityDescriptor value = descriptorIsKept value.
Proof.
  unfold isValidWidthOrDensityDescriptor, descriptorIsKept.
  destruct (unsnoc value) as [[front last]|] eqn:Hvalue.
  - apply unsnoc_substring in Hvalue as (Hlen & Hlast & Hfront).
    destruct value as [|c rest]; [done|].
    replace (String.length (String c rest) - 1) with (String.length front)
      by (rewrite Hlen; lia).
    rewrite Hlast, Hfront. cbn [String.eqb].
    by destruct (Ascii.eqb last "w"), (Ascii.eqb last "x").
  - by apply unsnoc_None in Hvalue as ->.
Qed.

Lemma srcsetLoop_spec (baseURL : string) (rawSources sanitizedSources : list string) :
  srcsetLoop baseURL rawSources sanitizedSources =
    (sanitizedSources ++ omap (rewriteCandidate baseURL) rawSources)%list.
Proof.
  revert sanitizedSources.
  induction rawSources as [|rawSource rest IH]; intros sanitizedSources.
  - simpl. by rewrite app_nil_r.
  - cbn [srcsetLoop omap list_omap]. unfold rewriteCandidate at 1, candidateURL, Go.HasPrefix.
    destruct (Go.Split (Go.TrimSpace rawSource) " ")
      as [|url [|descriptor [|extra more]]];
      cbn [length nth Nat.ltb Nat.leb Nat.eqb andb negb option_map];
      [apply IH|..].
    all: rewrite ?isValidWidthOrDensityDescriptor_spec.
    all: destruct (String.prefix "data:" url); cbn [negb option_map].
    all: try destruct (AbsoluteUrl url baseURL =? EmptyString).
    all: cbn [option_map]; rewrite ?IH, <- ?app_assoc; reflexivity.
Qed.

End Srcset.

(** *** The srcset value, candidate by candidate *)

(** Splitting at the separators. *)

Lemma isRegexpSpace_white (c : ascii) :
  Go.isRegexpSpace c = true ↔ c ∈ regexpWhite.
Proof.
  unfold Go.isRegexpSpace, regexpWhite.
  rewrite !orb_true_iff, !Ascii.eqb_eq, !elem_of_cons, elem_of_nil. tauto.
Qed.

Lemma startsWithRegexpSpace_white (s : string) :
  Go.startsWithRegexpSpace s = true ↔ startsWhite s.
Proof.
  destruct s as [|c rest]; simpl.
  - split; [done|]. by intros (? & ? & ? & _).
  - rewrite isRegexpSpace_white. split.
    + intros ?. by exists c, rest.
    + by intros (? & ? & [= <- <-] & ?).
Qed.

Lemma noSeparator_nil : noSeparator EmptyString.
Proof. intros [|] ???; discriminate. Qed.

Lemma noSeparator_cons (c : ascii) (piece : string) :
  noSeparator piece →
  (c = ","%char → Go.startsWithRegexpSpace piece = false) →
  noSeparator (String c piece).
Proof.
  intros Hpiece Hc [|b before] c' after Heq.
  - rewrite append_nil_l in Heq. injection Heq as -> ->.
    rewrite <- isRegexpSpace_white. specialize (Hc eq_refl). simpl in Hc.
    by rewrite Hc.
  - rewrite append_cons in Heq. injection Heq as _ ->. by eapply Hpiece.
Qed.

Lemma splitCommaSpaces_no_match (s : string) :
  Go.startsWithRegexpSpace s = false →
  Go.splitCommaSpaces true s = Go.splitCommaSpaces false s.
Proof. destruct s as [|c rest]; simpl; [done|]. by intros ->. Qed.

Lemma splitCommaSpaces_in_match (s : string) :
  Go.startsWithRegexpSpace s = true →
  ∃ white rest,
    s = white ++ rest ∧ whiteRun white ∧ ¬ startsWhite rest ∧
    Go.splitCommaSpaces true s = Go.splitCommaSpaces false rest ∧
    String.length rest < String.length s.
Proof.
  induction s as [|c s IH]; [done|]. cbn [Go.startsWithRegexpSpace].
  intros Hc. cbn [Go.splitCommaSpaces]. rewrite Hc. cbn [andb].
  apply isRegexpSpace_white in Hc.
  destruct (Go.startsWithRegexpSpace s) eqn:Hs.
  - destruct (IH eq_refl) as (white & rest & -> & Hwhite & Hrest & Hsplit & Hlen).
    exists (String c white), rest. split_and!; try done.
    + by apply whiteRun_more.
    + simpl. lia.
  - exists (String c EmptyString), s. split_and!; try done.
    + by apply whiteRun_one.
    + rewrite <- startsWithRegexpSpace_white. by rewrite Hs.
    + by apply splitCommaSpaces_no_match.
    + simpl. lia.
Qed.

Lemma splitCommaSpaces_splitsInto (s : string) :
  splitsInto s (Go.splitCommaSpaces false s).
Proof.
  remember (String.length s) as n eqn:Hn. revert s Hn.
  induction (lt_wf n) as [n _ IH]. intros s ->.
  destruct s as [|c s]; [apply splits_last, noSeparator_nil|].
  cbn [Go.splitCommaSpaces andb].
  destruct (Ascii.eqb c "," && Go.startsWithRegexpSpace s) eqn:Hmatch.
  - apply andb_prop in Hmatch as [->%Ascii.eqb_eq Hs].
    destruct (splitCommaSpaces_in_match s Hs)
      as (white & rest & -> & Hwhite & Hrest & -> & Hlen).
    apply (splits_more EmptyString); try done; [apply noSeparator_nil|].
    eapply IH; [|reflexivity]. simpl. lia.
  - assert (c = ","%char → Go.startsWithRegexpSpace s = false) as Hc.
    { intros ->. by rewrite Ascii.eqb_refl in Hmatch. }
    assert (splitsInto s (Go.splitCommaSpaces false s)) as Hs.
    { eapply IH; [|reflexivity]. simpl. lia. }
    destruct Hs as [piece Hpiece|piece white rest pieces Hpiece Hwhite Hrest Hs];
      cbn [Go.consHead].
    + apply splits_last. by apply noSeparator_cons.
    + rewrite <- append_cons. apply splits_more; try done.
      apply noSeparator_cons; [done|]. intros Hcomma.
      specialize (Hc Hcomma). by destruct piece.
Qed.

(** Joining, and splitting at a byte. *)
Lemma Join_concat (elems : list string) (sep : string) :
  Go.Join elems sep = String.concat sep elems.
Proof.
  induction elems as [|e [|e' elems] IH]; [done..|].
  rewrite Join_cons, IH. reflexivity.
Qed.

Lemma consHead_cons (c : ascii) (s : string) (sep : ascii) :
  ∃ piece pieces,
    Go.Split s sep = piece :: pieces ∧
    Go.consHead c (Go.Split s sep) = String c piece :: pieces.
Proof.
  destruct (Split_cons s sep) as (piece & pieces & ->). by exists piece, pieces.
Qed.

Lemma Split_no_separator (s : string) (sep : ascii) :
  Forall (λ part, sep ∉ bytes part) (Go.Split s sep).
Proof.
  induction s as [|c s IH]; simpl.
  - constructor; [|done]. apply not_elem_of_nil.
  - destruct (Ascii.eqb_spec c sep) as [->|Hne].
    + constructor; [apply not_elem_of_nil|done].
    + destruct (consHead_cons c s sep) as (piece & pieces & Hsplit & ->).
      rewrite Hsplit in IH. apply Forall_cons in IH as [Hpiece Hpieces].
      constructor; [|done]. unfold bytes. simpl.
      intros [?|?]%elem_of_cons; [congruence|done].
Qed.

(** Trimming. *)

Lemma nat_of_ascii_eqb (a : ascii) (n : nat) :
  Nat.eqb (nat_of_ascii a) n = true → a = ascii_of_nat n.
Proof. intros <-%Nat.eqb_eq. by rewrite ascii_nat_embedding. Qed.

Lemma nat_of_ascii_range (a : ascii) (lo hi : nat) :
  Nat.leb lo (nat_of_ascii a) && Nat.leb (nat_of_ascii a) hi = true →
  ∃ k : nat, (k ≤ hi - lo)%nat ∧ a = ascii_of_nat (lo + k).
Proof.
  intros [Hlo%Nat.leb_le Hhi%Nat.leb_le]%andb_prop.
  exists (nat_of_ascii a - lo). split; [lia|].
  replace (lo + (nat_of_ascii a - lo)) with (nat_of_ascii a) by lia.
  by rewrite ascii_nat_embedding.
Qed.

Ltac white_member := compute_done.

Ltac enumerate k H :=
  repeat (destruct k as [|k]; [white_member|]); exfalso; simpl in H; lia.

Lemma isSpace1_whiteSpace (a : ascii) :
  Go.isSpace1 a = true → [a] ∈ whiteSpace.
Proof.
  unfold Go.isSpace1. intros [H|H]%orb_prop.
  - apply nat_of_ascii_range in H as (k & Hk & ->). enumerate k Hk.
  - apply nat_of_ascii_eqb in H as ->. white_member.
Qed.

Lemma isSpace2_whiteSpace (a b : ascii) :
  Go.isSpace2 a b = true → [a; b] ∈ whiteSpace.
Proof.
  unfold Go.isSpace2.
  intros [->%nat_of_ascii_eqb [->%nat_of_ascii_eqb| ->%nat_of_ascii_eqb]%orb_prop]%andb_prop;
    white_member.
Qed.

Lemma isSpace3_whiteSpace (a b c : ascii) :
  Go.isSpace3 a b c = true → [a; b; c] ∈ whiteSpace.
Proof.
  unfold Go.isSpace3. cbv zeta. rewrite !orb_true_iff, !andb_true_iff.
  intros [[[[[Ha Hb] Hc]|[[Ha Hb] Hc]]|[[Ha Hb] Hc]]|[[Ha Hb] Hc]];
    apply nat_of_ascii_eqb in Ha as ->; apply nat_of_ascii_eqb in Hb as ->.
  - apply nat_of_ascii_eqb in Hc as ->. white_member.
  - rewrite !orb_true_iff in Hc. destruct Hc as [[[Hc|Hc]|Hc]|Hc];
      try (apply nat_of_ascii_eqb in Hc as ->; white_member).
    apply nat_of_ascii_range in Hc as (k & Hk & ->).
    enumerate k Hk.
  - apply nat_of_ascii_eqb in Hc as ->. white_member.
  - apply nat_of_ascii_eqb in Hc as ->. white_member.
Qed.

Lemma whiteSpace_startsWithSpace (rev3 : bool) (w l : list ascii) :
  w ∈ whiteSpace → facing rev3 w `prefix_of` l → startsWithSpace rev3 l = true.
Proof.
  intros Hw [k ->]. unfold whiteSpace in Hw.
  repeat (apply elem_of_cons in Hw as [->|Hw]); [..|by apply elem_of_nil in Hw].
  all: by destruct rev3.
Qed.

Lemma trimFront_cases (rev3 : bool) (l : list ascii) :
  (startsWithSpace rev3 l = false ∧ Go.trimFront rev3 l = l) ∨
  (∃ w rest, w ∈ whiteSpace ∧ l = (facing rev3 w ++ rest)%list ∧
             Go.trimFront rev3 l = Go.trimFront rev3 rest).
Proof.
  destruct l as [|a l1]; [by left|]. cbn [Go.trimFront startsWithSpace].
  destruct (Go.isSpace1 a) eqn:H1.
  { right. exists [a], l1. split_and!; [by apply isSpace1_whiteSpace| |done].
    by destruct rev3. }
  destruct l1 as [|b l2]; [by left|]. cbn [orb].
  destruct (if rev3 then Go.isSpace2 b a else Go.isSpace2 a b) eqn:H2.
  { right. destruct rev3.
    - exists [b; a], l2. split_and!; [by apply isSpace2_whiteSpace|done..].
    - exists [a; b], l2. split_and!; [by apply isSpace2_whiteSpace|done..]. }
  destruct l2 as [|c l3]; [by left|]. cbn [orb].
  destruct (if rev3 then Go.isSpace3 c b a else Go.isSpace3 a b c) eqn:H3;
    [|by left].
  right. destruct rev3.
  - exists [c; b; a], l3. split_and!; [by apply isSpace3_whiteSpace|done..].
  - exists [a; b; c], l3. split_and!; [by apply isSpace3_whiteSpace|done..].
Qed.

Lemma whiteSpace_not_nil (rev3 : bool) (w : list ascii) :
  w ∈ whiteSpace → 0 < length (facing rev3 w).
Proof.
  intros Hw. assert (0 < length w).
  { destruct w; [exfalso; revert Hw; compute_done|simpl; lia]. }
  unfold facing. destruct rev3; by rewrite ?length_rev.
Qed.

Lemma trimFront_spec (rev3 : bool) (l : list ascii) :
  ∃ lead,
    l = (lead ++ Go.trimFront rev3 l)%list ∧
    concatOf (map (facing rev3) whiteSpace) lead ∧
    startsWithSpace rev3 (Go.trimFront rev3 l) = false.
Proof.
  remember (length l) as n eqn:Hn. revert l Hn.
  induction (lt_wf n) as [n _ IH]. intros l ->.
  destruct (trimFront_cases rev3 l) as [[Hstart ->]|(w & rest & Hw & -> & ->)].
  - exists []. split_and!; [done|constructor|done].
  - destruct (IH (length rest)) with (l := rest) as (lead & Hrest & Hlead & Hstart);
      [|done|].
    { rewrite length_app. pose proof (whiteSpace_not_nil rev3 w Hw). lia. }
    exists (facing rev3 w ++ lead)%list. split_and!; [|by constructor; [apply list_elem_of_fmap_2|]|done].
    rewrite <- app_assoc. by rewrite <- Hrest.
Qed.

Lemma concatOf_app_run (words : list (list ascii)) (l k : list ascii) :
  concatOf words l → concatOf words k → concatOf words (l ++ k).
Proof.
  induction 1 as [|w l Hw _ IH]; intros Hk; [done|].
  rewrite <- app_assoc. constructor; auto.
Qed.

Lemma concatOf_rev (l : list ascii) :
  concatOf (map (facing true) whiteSpace) l → concatOf whiteSpace (rev l).
Proof.
  induction 1 as [|w l Hw _ IH]; [constructor|].
  rewrite rev_app_distr. apply concatOf_app_run; [done|].
  apply list_elem_of_fmap in Hw as (w' & -> & Hw'). unfold facing.
  rewrite rev_involutive. rewrite <- (app_nil_r w').
  constructor; [done|constructor].
Qed.

Lemma TrimSpace_trimmed (s : string) : trimmed s (Go.TrimSpace s).
Proof.
  unfold trimmed, Go.TrimSpace, bytes.
  rewrite String.list_ascii_of_string_of_list_ascii.
  set (l := String.list_ascii_of_string s).
  destruct (trimFront_spec false l) as (lead & Hl & Hlead & Hfront).
  set (front := Go.trimFront false l) in *.
  destruct (trimFront_spec true (rev front)) as (trail & Hrev & Htrail & Hback).
  set (back := Go.trimFront true (rev front)) in *.
  assert (front = (rev back ++ rev trail)%list) as Hcore.
  { rewrite <- rev_app_distr, <- Hrev. by rewrite rev_involutive. }
  exists lead, (rev trail). split_and!.
  - by rewrite <- Hcore.
  - unfold facing in Hlead. by rewrite map_id in Hlead.
  - by apply concatOf_rev.
  - intros w Hw Hprefix.
    assert (startsWithSpace false front = true); [|congruence].
    apply (whiteSpace_startsWithSpace false w); [done|].
    rewrite Hcore. by apply prefix_app_r.
  - intros w Hw Hsuffix.
    assert (startsWithSpace true back = true); [|congruence].
    apply (whiteSpace_startsWithSpace true w); [done|].
    destruct Hsuffix as [k Hk]. exists (rev k).
    rewrite <- (rev_involutive back), Hk, rev_app_distr. done.
Qed.

(** The pieces, the core and the parts are the only ones. *)

Lemma noSeparator_tail (c : ascii) (piece : string) :
  noSeparator (String c piece) → noSeparator piece.
Proof.
  intros Hpiece before c' after ->.
  by apply (Hpiece (String c before) c' after).
Qed.

Lemma noSeparator_head (piece : string) :
  noSeparator (String "," piece) → Go.startsWithRegexpSpace piece = false.
Proof.
  intros Hpiece. destruct piece as [|c piece]; [done|]. simpl.
  apply not_true_is_false. rewrite isRegexpSpace_white.
  by apply (Hpiece EmptyString c piece).
Qed.

Lemma splitCommaSpaces_whole (piece : string) :
  noSeparator piece → Go.splitCommaSpaces false piece = [piece].
Proof.
  induction piece as [|c piece IH]; [done|]. intros Hpiece.
  cbn [Go.splitCommaSpaces andb]. rewrite IH by by eapply noSeparator_tail.
  destruct (Ascii.eqb_spec c ",") as [->|_]; [|done].
  by rewrite noSeparator_head.
Qed.

Lemma splitCommaSpaces_white (white rest : string) :
  whiteRun white → ¬ startsWhite rest →
  Go.startsWithRegexpSpace (white ++ rest) = true ∧
  Go.splitCommaSpaces true (white ++ rest) = Go.splitCommaSpaces false rest.
Proof.
  intros Hwhite Hrest.
  induction Hwhite as [c Hc|c white Hc _ [_ IH]];
    apply isRegexpSpace_white in Hc;
    rewrite append_cons; cbn [Go.startsWithRegexpSpace Go.splitCommaSpaces];
    rewrite Hc; cbn [andb]; (split; [done|]); [|done].
  rewrite append_nil_l. apply splitCommaSpaces_no_match.
  apply not_true_is_false. by rewrite startsWithRegexpSpace_white.
Qed.

Lemma splitCommaSpaces_piece (piece white rest : string) :
  noSeparator piece → whiteRun white → ¬ startsWhite rest →
  Go.splitCommaSpaces false (piece ++ "," ++ white ++ rest) =
    piece :: Go.splitCommaSpaces false rest.
Proof.
  intros Hpiece Hwhite Hrest.
  destruct (splitCommaSpaces_white white rest Hwhite Hrest) as [Hstart Hsplit].
  induction piece as [|c piece IH].
  - rewrite append_nil_l.
    change ("," ++ white ++ rest) with (String "," (white ++ rest)).
    cbn [Go.splitCommaSpaces andb]. rewrite Ascii.eqb_refl, Hstart. cbn [andb].
    by rewrite Hsplit.
  - rewrite append_cons. cbn [Go.splitCommaSpaces andb].
    rewrite IH by by eapply noSeparator_tail. cbn [Go.consHead].
    destruct (Ascii.eqb_spec c ",") as [->|_]; [|done].
    apply noSeparator_head in Hpiece.
    destruct piece as [|c' piece]; [done|].
    rewrite append_cons. cbn [Go.startsWithRegexpSpace] in *. by rewrite Hpiece.
Qed.

Lemma splitsInto_unique (value : string) (pieces : list string) :
  splitsInto value pieces → pieces = Go.splitCommaSpaces false value.
Proof.
  induction 1 as [piece Hpiece|piece white rest pieces Hpiece Hwhite Hrest _ IH].
  - by rewrite splitCommaSpaces_whole.
  - by rewrite splitCommaSpaces_piece, IH.
Qed.

Lemma Split_piece (part : string) (sep : ascii) :
  sep ∉ bytes part → Go.Split part sep = [part].
Proof.
  induction part as [|c part IH]; [done|]. unfold bytes. simpl.
  intros [Hc Hpart]%not_elem_of_cons.
  destruct (Ascii.eqb_spec c sep) as [->|_]; [done|]. by rewrite IH.
Qed.

Lemma Split_part (part rest : string) (sep : ascii) :
  sep ∉ bytes part →
  Go.Split (part ++ String sep rest) sep = part :: Go.Split rest sep.
Proof.
  induction part as [|c part IH]; unfold bytes; simpl.
  - intros _. by rewrite Ascii.eqb_refl.
  - intros [Hc Hpart]%not_elem_of_cons.
    destruct (Ascii.eqb_spec c sep) as [->|_]; [done|]. by rewrite IH.
Qed.

Lemma Split_concat (parts : list string) (sep : ascii) :
  parts ≠ [] → Forall (λ part, sep ∉ bytes part) parts →
  Go.Split (String.concat (String sep EmptyString) parts) sep = parts.
Proof.
  intros Hne Hparts. induction Hparts as [|part parts Hpart Hparts IH]; [done|].
  destruct parts as [|part' parts]; [by apply Split_piece|].
  change (String.concat (String sep EmptyString) (part :: part' :: parts))
    with (part ++ String sep (String.concat (String sep EmptyString) (part' :: parts))).
  by rewrite Split_part, IH.
Qed.

(** Trimming takes the white space away and nothing else. *)

Lemma startsWithSpace_whiteSpace (rev3 : bool) (l : list ascii) :
  startsWithSpace rev3 l = true →
  ∃ w, w ∈ whiteSpace ∧ facing rev3 w `prefix_of` l.
Proof.
  intros Hstart.
  destruct (trimFront_cases rev3 l) as [[Hnone _]|(w & rest & Hw & -> & _)];
    [congruence|].
  exists w. split; [done|]. by apply prefix_app_r.
Qed.

Lemma trimFront_word (rev3 : bool) (w l : list ascii) :
  w ∈ whiteSpace → Go.trimFront rev3 (facing rev3 w ++ l) = Go.trimFront rev3 l.
Proof.
  intros Hw. unfold whiteSpace in Hw.
  repeat (apply elem_of_cons in Hw as [->|Hw]); [..|by apply elem_of_nil in Hw].
  all: by destruct rev3.
Qed.

Lemma trimFront_run (rev3 : bool) (lead l : list ascii) :
  concatOf (map (facing rev3) whiteSpace) lead →
  Go.trimFront rev3 (lead ++ l) = Go.trimFront rev3 l.
Proof.
  induction 1 as [|w lead Hw _ IH]; [done|].
  apply list_elem_of_fmap in Hw as (w' & -> & Hw').
  by rewrite <- app_assoc, trimFront_word.
Qed.

Lemma trimFront_none (rev3 : bool) (l : list ascii) :
  startsWithSpace rev3 l = false → Go.trimFront rev3 l = l.
Proof.
  intros Hnone.
  destruct (trimFront_cases rev3 l) as [[_ ->]|(w & rest & Hw & -> & _)]; [done|].
  rewrite (whiteSpace_startsWithSpace rev3 w) in Hnone; [done..|].
  by apply prefix_app_r.
Qed.

Lemma concatOf_facing (l : list ascii) :
  concatOf whiteSpace l → concatOf (map (facing true) whiteSpace) (rev l).
Proof.
  induction 1 as [|w l Hw _ IH]; [constructor|].
  rewrite rev_app_distr. apply concatOf_app_run; [done|].
  rewrite <- (app_nil_r (rev w)). constructor; [|constructor].
  by apply (list_elem_of_fmap_2 (facing true)).
Qed.

(** The first byte of an encoding is not a later byte of an encoding. *)
Lemma whiteSpace_bytes (w1 w2 : list ascii) (a : ascii) (front back later : list ascii) :
  w1 ∈ whiteSpace → w2 ∈ whiteSpace →
  w1 = (front ++ a :: back)%list → front ≠ [] → w2 = a :: later → False.
Proof.
  intros Hw1 Hw2 H1 Hfront H2. unfold whiteSpace in Hw1.
  repeat (apply elem_of_cons in Hw1 as [->|Hw1]); [..|by apply elem_of_nil in Hw1].
  all: destruct front as [|x1 [|x2 [|x3 front]]]; try done;
    simplify_eq/=; try (by destruct front).
  all: unfold whiteSpace in Hw2.
  all: repeat (apply elem_of_cons in Hw2 as [Hw2|Hw2]; [discriminate Hw2|]).
  all: by apply elem_of_nil in Hw2.
Qed.

Lemma concatOf_cons (a : ascii) (l : list ascii) :
  concatOf whiteSpace (a :: l) → ∃ later, a :: later ∈ whiteSpace.
Proof.
  intros Hrun. remember (a :: l) as k eqn:Hk. revert a l Hk.
  induction Hrun as [|w k Hw _ IH]; intros a l Hk; [done|].
  destruct w as [|b later].
  - apply (whiteSpace_not_nil false) in Hw. simpl in Hw. lia.
  - injection Hk as -> _. by exists later.
Qed.

Lemma trimmed_core_start (core trail : list ascii) :
  core ≠ [] → concatOf whiteSpace trail →
  (∀ w, w ∈ whiteSpace → ¬ w `prefix_of` core) →
  startsWithSpace false (core ++ trail) = false.
Proof.
  intros Hcore Htrail Hprefix. apply not_true_is_false. intros Hstart.
  apply startsWithSpace_whiteSpace in Hstart as (w & Hw & Hstart).
  unfold facing in Hstart.
  destruct (prefix_weak_total w core (core ++ trail) Hstart)
    as [?|[x ->]]; [by apply prefix_app_r|by eapply Hprefix|].
  apply prefix_app_inv in Hstart.
  destruct x as [|a x].
  { apply (Hprefix _ Hw). by rewrite app_nil_r. }
  destruct Hstart as [k ->].
  apply concatOf_cons in Htrail as [later Hlater].
  by apply (whiteSpace_bytes (core ++ a :: x) (a :: later) a core x later).
Qed.

Lemma trimmed_TrimSpace (candidate core : string) :
  trimmed candidate core → Go.TrimSpace candidate = core.
Proof.
  intros (lead & trail & Hbytes & Hlead & Htrail & Hprefix & Hsuffix).
  unfold Go.TrimSpace. fold (bytes candidate). rewrite Hbytes.
  rewrite (trimFront_run false) by exact Hlead.
  rewrite <- (String.string_of_list_ascii_of_string core) at 2.
  fold (bytes core). f_equal.
  destruct (bytes core) as [|a l] eqn:Hcore.
  - rewrite app_nil_l, <- (app_nil_r trail). by rewrite (trimFront_run false).
  - rewrite <- Hcore in *.
    rewrite (trimFront_none false)
      by (apply trimmed_core_start; [by rewrite Hcore|done..]).
    rewrite rev_app_distr, (trimFront_run true) by by apply concatOf_facing.
    rewrite trimFront_none; [apply rev_involutive|].
    apply not_true_is_false. intros Hstart.
    apply startsWithSpace_whiteSpace in Hstart as (w & Hw & [k Hk]).
    apply (Hsuffix _ Hw). exists (rev k).
    rewrite <- (rev_involutive (bytes core)), Hk. unfold facing.
    by rewrite rev_app_distr, rev_involutive.
Qed.

Lemma candidateParts_unique (candidate : string) (parts : list string) :
  candidateParts candidate parts →
  parts = Go.Split (Go.TrimSpace candidate) " ".
Proof.
  intros (core & Hcore & Hne & Hconcat & Hparts).
  rewrite (trimmed_TrimSpace _ _ Hcore), <- Hconcat.
  symmetry. by apply (Split_concat parts " ").
Qed.

Lemma candidateParts_all_unique (candidates : list string) (parts : list (list string)) :
  Forall2 candidateParts candidates parts →
  parts = map (λ candidate, Go.Split (Go.TrimSpace candidate) " ") candidates.
Proof.
  induction 1 as [|candidate part candidates parts Hpart _ IH]; [done|].
  cbn [map]. by rewrite <- IH, <- (candidateParts_unique _ _ Hpart).
Qed.

Section SrcsetByCandidate.

Context {policy : Policy}.

Lemma TrimSpace_Split_parts (candidate : string) :
  candidateParts candidate (Go.Split (Go.TrimSpace candidate) " ").
Proof.
  exists (Go.TrimSpace candidate). split_and!.
  - apply TrimSpace_trimmed.
  - by destruct (Split_cons (Go.TrimSpace candidate) " ") as (? & ? & ->).
  - rewrite <- Join_concat. apply (Join_Split _ " "%char).
  - apply Split_no_separator.
Qed.

Lemma rewriteCandidate_parts (baseURL : string) (candidates : list string) :
  omap (rewriteCandidate baseURL) candidates =
    omap (keptCandidate baseURL)
      (map (λ candidate, Go.Split (Go.TrimSpace candidate) " ") candidates).
Proof.
  induction candidates as [|candidate candidates IH]; [done|].
  cbn [omap list_omap map]. fold (omap (rewriteCandidate baseURL) candidates).
  by rewrite IH.
Qed.

(** C7, amended: the srcset value is split at each comma followed by white
    space, the white space being part of the separator; each candidate is
    trimmed and cut at its spaces into parts: there are such candidates and
    parts, and with them the result is as follows.  The first part is the URL:
    it is kept verbatim when it starts with [data:], resolved against the
    base URL otherwise, and the candidate is dropped when the resolution
    gives nothing.  The descriptor is kept exactly when the candidate has
    exactly two parts and the second is non-empty, ends in [w] or [x] and
    what precedes that byte parses as a floating-point number; in any
    other case, a third part included, the URL alone is kept.  The
    surviving candidates are joined with a comma and a space. *)
Theorem srcset_is_rewritten_by_candidate (baseURL value : string) :
  (∃ candidates parts,
     splitsInto value candidates ∧ Forall2 candidateParts candidates parts) ∧
  (∀ candidates parts,
     splitsInto value candidates →
     Forall2 candidateParts candidates parts →
     sanitizeSrcsetAttr baseURL value =
       String.concat ", " (omap (keptCandidate baseURL) parts)).
Proof.
  split.
  - exists (Go.splitCommaSpaces false value),
      (map (λ candidate, Go.Split (Go.TrimSpace candidate) " ")
         (Go.splitCommaSpaces false value)).
    split; [apply splitCommaSpaces_splitsInto|].
    apply Forall2_fmap_r, Forall_Forall2_diag, Forall_forall.
    intros candidate _. apply TrimSpace_Split_parts.
  - intros candidates parts ->%splitsInto_unique ->%candidateParts_all_unique.
    unfold sanitizeSrcsetAttr.
    by rewrite srcsetLoop_spec, app_nil_l, Join_concat, rewriteCandidate_parts.
Qed.

End SrcsetByCandidate.

(** ** Attribute policy *)

Section Attributes.

Context {policy : Policy}.

Lemma attributesLoop_spec baseURL tagName attributes htmlAttrs attrNames :
  attributesLoop baseURL tagName attributes htmlAttrs attrNames =
    ((htmlAttrs ++
        map (λ kv, formatAttribute kv.1 kv.2) (survivors baseURL tagName attributes))%list,
     (attrNames ++ map fst (survivors baseURL tagName attributes))%list).
Proof.
  revert htmlAttrs attrNames.
  induction attributes as [|attribute rest IH]; intros htmlAttrs attrNames.
  - simpl. by rewrite !app_nil_r.
  - cbn [attributesLoop survivors omap list_omap]. fold (survivors baseURL tagName rest).
    unfold survivingValue.
    destruct (isValidAttribute tagName (Key attribute)); cbn [negb];
      [|apply IH].
    destruct (isExternalResourceAttribute (Key attribute)).
    + destruct (tagName =? "iframe").
      * destruct (isValidIframeSource baseURL (Val attribute));
          cbn [option_map]; rewrite IH; cbn [map fst snd];
          by rewrite <- ?app_assoc.
      * destruct ((tagName =? "img") && (Key attribute =? "src") &&
                  isValidDataAttribute (Val attribute));
          [cbn [option_map]; rewrite IH; cbn [map fst snd];
           by rewrite <- ?app_assoc|].
        match goal with
        | |- context [AbsoluteUrl ?v baseURL] =>
            destruct (AbsoluteUrl v baseURL =? EmptyString);
            [apply IH|];
            destruct (hasValidURIScheme (AbsoluteUrl v baseURL)),
                     (isBlockedResource (AbsoluteUrl v baseURL))
        end;
          cbn [negb orb andb option_map]; rewrite IH; cbn [map fst snd];
          by rewrite <- ?app_assoc.
    + cbn [option_map]. rewrite IH. cbn [map fst snd].
      by rewrite <- ?app_assoc.
Qed.

Lemma sanitizeAttributes_spec baseURL tagName attributes :
  sanitizeAttributes baseURL tagName attributes =
    ((map fst (survivors baseURL tagName attributes) ++
        (getExtraAttributes tagName).1)%list,
     Go.Join
       (map (λ kv, formatAttribute kv.1 kv.2) (survivors baseURL tagName attributes) ++
          (getExtraAttributes tagName).2)%list
       " ").
Proof.
  unfold sanitizeAttributes. rewrite attributesLoop_spec.
  destruct (getExtraAttributes tagName) as [[|name extraNames] extraHTML] eqn:Hextra;
    cbn [length Nat.ltb Nat.leb fst snd app]; [|done].
  rewrite !app_nil_r.
  assert (extraHTML = []) as ->; [|by rewrite app_nil_r].
  unfold getExtraAttributes in Hextra.
  repeat case_match; by simplify_eq.
Qed.

Lemma elem_of_survivors baseURL tagName attributes key value :
  (key, value) ∈ survivors baseURL tagName attributes ↔
  ∃ attribute, attribute ∈ attributes ∧ Key attribute = key ∧
    survivingValue baseURL tagName attribute = Some value.
Proof.
  unfold survivors. rewrite list_elem_of_omap. split.
  - intros (attribute & Hin & Hsome). exists attribute.
    destruct (survivingValue baseURL tagName attribute); by simplify_eq/=.
  - intros (attribute & Hin & <- & Hsome). exists attribute.
    by rewrite Hsome.
Qed.

Lemma survivingValue_valid baseURL tagName attribute value :
  survivingValue baseURL tagName attribute = Some value →
  isValidAttribute tagName (Key attribute) = true.
Proof.
  unfold survivingValue.
  by destruct (isValidAttribute tagName (Key attribute)).
Qed.

Lemma extra_names_not_external tagName name :
  name ∈ (getExtraAttributes tagName).1 →
  isExternalResourceAttribute name = false.
Proof.
  unfold getExtraAttributes. repeat case_match; cbn [fst]; intros Hin.
  all: repeat (apply elem_of_cons in Hin as [->|Hin]); try reflexivity.
  all: by apply elem_of_nil in Hin.
Qed.

Lemma surviving_external_value baseURL tagName attribute value :
  survivingValue baseURL tagName attribute = Some value →
  isExternalResourceAttribute (Key attribute) = true →
  (tagName = "iframe" ∧ isValidIframeSource baseURL value = true) ∨
  (tagName = "img" ∧ Key attribute = "src" ∧ isValidDataAttribute value = true) ∨
  (tagName ≠ "iframe" ∧ value ≠ EmptyString ∧ hasValidURIScheme value = true ∧
   isBlockedResource value = false).
Proof.
  unfold survivingValue. intros Hsome Hext. rewrite Hext in Hsome.
  destruct (isValidAttribute tagName (Key attribute)); [|discriminate].
  destruct (String.eqb_spec tagName "iframe") as [->|Hne].
  - destruct (isValidIframeSource baseURL (Val attribute)) eqn:Hsrc;
      [|discriminate].
    injection Hsome as <-. by left.
  - destruct ((tagName =? "img") && (Key attribute =? "src") &&
              isValidDataAttribute (Val attribute)) eqn:Hdata.
    + apply andb_prop in Hdata as [[Htag Hkey]%andb_prop Hdata].
      apply String.eqb_eq in Htag, Hkey.
      injection Hsome as <-. right; left. done.
    + match type of Hsome with
      | context [AbsoluteUrl ?v baseURL] =>
          generalize dependent (AbsoluteUrl v baseURL)
      end.
      intros resolved Hsome.
      destruct (String.eqb_spec resolved EmptyString); [discriminate|].
      destruct (hasValidURIScheme resolved) eqn:Hscheme,
               (isBlockedResource resolved) eqn:Hblocked; try discriminate.
      injection Hsome as <-. right; right. done.
Qed.

(** C2, amended: the attributes that [sanitizeAttributes] emits are the
    surviving source attributes followed by the injected ones, and no
    injected one is [href], [src], [poster] or [cite]; the value emitted
    for an [href], [src], [poster] or [cite] is the raw [src] of an iframe
    whose domain passed the iframe check (no scheme is asked of it), or the
    raw [src] of an [img] that starts with an allowed [data:] image prefix,
    or on any other tag a resolved URL that is not empty, has a scheme of
    the allowlist and is not on the resource blocklist. *)
Theorem emitted_resource_values baseURL tagName attributes :
  sanitizeAttributes baseURL tagName attributes =
    ((map fst (survivors baseURL tagName attributes) ++
        (getExtraAttributes tagName).1)%list,
     Go.Join
       (map (λ kv, formatAttribute kv.1 kv.2) (survivors baseURL tagName attributes) ++
          (getExtraAttributes tagName).2)%list
       " ") ∧
  (∀ name, name ∈ (getExtraAttributes tagName).1 →
           isExternalResourceAttribute name = false) ∧
  (∀ key value,
     (key, value) ∈ survivors baseURL tagName attributes →
     isExternalResourceAttribute key = true →
     (tagName = "iframe" ∧ isValidIframeSource baseURL value = true) ∨
     (tagName = "img" ∧ key = "src" ∧ isValidDataAttribute value = true) ∨
     (tagName ≠ "iframe" ∧ value ≠ EmptyString ∧
      hasValidURIScheme value = true ∧ isBlockedResource value = false)).
Proof.
  split_and!.
  - apply sanitizeAttributes_spec.
  - apply extra_names_not_external.
  - intros key value (attribute & _ & <- & Hsome)%elem_of_survivors Hext.
    by eapply surviving_external_value.
Qed.

(** The [src] of an iframe survives on the domain check alone: with the
    domain of the base URL, whatever its scheme. *)
Lemma iframe_src_of_base_domain_survives baseURL src :
  isValidAttribute "iframe" "src" = true →
  URLDomain baseURL = URLDomain src →
  survivors baseURL "iframe" [mkAttribute EmptyString "src" src] = [("src", src)].
Proof.
  intros Hvalid Hdomain. unfold survivors, survivingValue, isValidIframeSource.
  cbn [omap list_omap Key Val]. rewrite Hvalid, Hdomain.
  change (isExternalResourceAttribute "src") with true.
  change ("iframe" =? "iframe") with true.
  by rewrite String.eqb_refl.
Qed.

Lemma survivors_invalid baseURL tagName attributes :
  Forall (λ attribute, isValidAttribute tagName (Key attribute) = false) attributes →
  survivors baseURL tagName attributes = [].
Proof.
  induction 1 as [|attribute rest Hinvalid _ IH]; [done|].
  cbn [survivors omap list_omap]. fold (survivors baseURL tagName rest).
  unfold survivingValue. by rewrite Hinvalid, IH.
Qed.

Lemma injectedAttributes_names tagName :
  map Key (injectedAttributes tagName) = (getExtraAttributes tagName).1.
Proof.
  unfold injectedAttributes, getExtraAttributes. by repeat case_match.
Qed.

End Attributes.

(** ** The loop *)

Section Loop.

Context {policy : Policy}.

Implicit Types (st : State) (token : Token) (toks : list Token).
Implicit Types (baseURL : string).

Lemma run_app baseURL st toks1 toks2 :
  run baseURL st (toks1 ++ toks2) = run baseURL (run baseURL st toks1) toks2.
Proof. apply fold_left_app. Qed.

Lemma run_cons baseURL st token toks :
  run baseURL st (token :: toks) = run baseURL (step baseURL st token) toks.
Proof. reflexivity. Qed.

Lemma loop_run baseURL st toks e :
  loop baseURL st toks e =
    match e with
    | EOF => buffer (run baseURL st toks)
    | OtherError => EmptyString
    end.
Proof.
  revert st. induction toks as [|token toks IH]; intros st.
  - by destruct e.
  - rewrite run_cons. apply IH.
Qed.

Lemma Sanitize_run (tokenize : string → TokenStream) baseURL input :
  Sanitize tokenize baseURL input =
    match err (tokenize input) with
    | EOF => buffer (run baseURL initial (tokens (tokenize input)))
    | OtherError => EmptyString
    end.
Proof. unfold Sanitize, SanitizeTokens. apply loop_run. Qed.

(** C4: when the tokenizer stops on an error other than the end of the
    input, [Sanitize] returns the empty string whatever was written to the
    buffer; when the input ends normally, it returns exactly the buffer
    accumulated over the tokens. *)
Theorem Sanitize_fail_closed (tokenize : string → TokenStream) baseURL input :
  Sanitize tokenize baseURL input =
    match err (tokenize input) with
    | EOF => buffer (run baseURL initial (tokens (tokenize input)))
    | OtherError => EmptyString
    end.
Proof. unfold Sanitize, SanitizeTokens. apply loop_run. Qed.

End Loop.

(** ** Blocked tag names in the output *)

Lemma prefix_cons (a b : ascii) (s1 s2 : string) :
  String.prefix (String a s1) (String b s2) = Ascii.eqb a b && String.prefix s1 s2.
Proof.
  simpl. destruct (ascii_dec a b) as [->|Hne].
  - by rewrite Ascii.eqb_refl.
  - apply Ascii.eqb_neq in Hne. by rewrite Hne.
Qed.

Lemma noLt_app (a b : string) : noLt (a ++ b) = noLt a && noLt b.
Proof.
  induction a as [|c a IH]; [done|].
  rewrite append_cons. simpl. by rewrite IH, andb_assoc.
Qed.

Lemma noLt_EscapeString (s : string) : noLt (Go.EscapeString s) = true.
Proof.
  induction s as [|c s IH]; [done|].
  simpl. rewrite noLt_app, IH, andb_true_r. unfold Go.escapeByte.
  repeat case_match; try reflexivity.
  simpl. rewrite andb_true_r. apply negb_true_iff.
  by rewrite Ascii.eqb_sym.
Qed.

Lemma noLt_Join (elems : list string) (sep : string) :
  Forall (λ e, noLt e = true) elems → noLt sep = true →
  noLt (Go.Join elems sep) = true.
Proof.
  intros Hall Hsep. induction Hall as [|e elems He Hall IH]; [done|].
  destruct elems as [|e' elems]; [done|].
  cbn [Go.Join] in *. by rewrite !noLt_app, He, Hsep, IH.
Qed.

Lemma diverges_app (pattern a b : string) :
  diverges pattern a = true → diverges pattern (a ++ b) = true.
Proof.
  revert a. induction pattern as [|p pattern IH]; intros [|c a]; try done.
  rewrite append_cons. simpl. destruct (Ascii.eqb p c); [apply IH|done].
Qed.

Lemma diverges_prefix (pattern s : string) :
  diverges pattern s = true → String.prefix pattern s = false.
Proof.
  revert s. induction pattern as [|p pattern IH]; intros [|c s]; try done.
  rewrite prefix_cons. simpl. destruct (Ascii.eqb p c); [apply IH|done].
Qed.

(** A name that does not start with [pattern], followed by a byte that is
    not in [pattern], differs from [pattern]. *)
Lemma diverges_delimiter (pattern tagName : string) (c : ascii) (rest : string) :
  String.prefix pattern tagName = false → occurs c pattern = false →
  diverges pattern (tagName ++ String c rest) = true.
Proof.
  revert tagName.
  induction pattern as [|p pattern IH]; intros tagName Hprefix Hoccurs;
    [by destruct tagName|].
  simpl in Hoccurs. apply orb_false_iff in Hoccurs as [Hpc Hoccurs].
  destruct tagName as [|x tagName].
  - rewrite append_nil_l. simpl. by rewrite Hpc.
  - rewrite prefix_cons in Hprefix. rewrite append_cons. simpl.
    destruct (Ascii.eqb p x); [by apply IH|done].
Qed.

Lemma divergesFromBlocked_app (a b : string) :
  divergesFromBlocked a = true → divergesFromBlocked (a ++ b) = true.
Proof.
  unfold divergesFromBlocked, blockedNames. cbn [forallb].
  rewrite !andb_true_iff. intros (H1 & H2 & H3 & _).
  by rewrite !diverges_app.
Qed.

Lemma clean_app (a b : string) :
  clean a = true → clean b = true → clean (a ++ b) = true.
Proof.
  intros Ha Hb. induction a as [|c a IH]; [done|].
  rewrite append_cons. simpl in *.
  apply andb_true_iff in Ha as [Hc Ha]. rewrite IH by done.
  rewrite andb_true_r. destruct (Ascii.eqb c "<"); [|done].
  by apply divergesFromBlocked_app.
Qed.

Lemma noLt_clean (s : string) : noLt s = true → clean s = true.
Proof.
  induction s as [|c s IH]; [done|]. simpl.
  intros [Hc Hs]%andb_true_iff. apply negb_true_iff in Hc.
  by rewrite Hc, IH.
Qed.

(** A clean string holds no less-than sign followed by the name of a blocked
    tag. *)
Lemma clean_Contains (s name : string) :
  name ∈ blockedNames → clean s = true → Go.Contains s ("<" ++ name) = false.
Proof.
  intros Hname. change ("<" ++ name) with (String "<" name).
  induction s as [|c s IH]; intros Hclean; [done|].
  - simpl in Hclean. apply andb_true_iff in Hclean as [Hc Hs].
    cbn [Go.Contains]. rewrite IH, orb_false_r by done.
    rewrite prefix_cons.
    rewrite Ascii.eqb_sym. destruct (Ascii.eqb c "<"); [|done].
    apply diverges_prefix.
    unfold divergesFromBlocked in Hc. rewrite forallb_forall in Hc.
    apply Hc. by apply list_elem_of_In.
Qed.

Lemma open_tag_clean (tagName : string) (c : ascii) (rest : string) :
  tagNameSafe tagName = true →
  c ∈ [" "%char; ">"%char; "/"%char] → noLt rest = true →
  clean ("<" ++ tagName ++ String c rest) = true.
Proof.
  unfold tagNameSafe, blockedNames. cbn [forallb].
  rewrite !andb_true_iff, !negb_true_iff.
  intros (Hlt & H1 & H2 & H3 & _) Hc Hrest.
  assert (noLt (tagName ++ String c rest) = true) as Hbody.
  { rewrite noLt_app, Hlt. simpl. rewrite Hrest, andb_true_r.
    set_unfold. by destruct Hc as [->|[->|[->|[]]]]. }
  change ("<" ++ ?x) with (String "<" x). simpl.
  rewrite (noLt_clean _ Hbody), andb_true_r.
  unfold divergesFromBlocked, blockedNames. cbn [forallb].
  rewrite !diverges_delimiter; try done.
  all: set_unfold; by destruct Hc as [->|[->|[->|[]]]].
Qed.

Lemma close_tag_clean (tagName : string) :
  noLt tagName = true → clean ("</" ++ tagName ++ ">") = true.
Proof.
  intros Hlt. change ("</" ++ ?x) with (String "<" (String "/" x)).
  simpl. apply noLt_clean. by rewrite noLt_app, Hlt.
Qed.

Section NoBlockedTag.

Context {policy : Policy}.
Hypothesis Hsafe : safeNames policy.

Lemma has_elem_of (s : gset string) (key : string) : has s key = true → key ∈ s.
Proof. apply bool_decide_eq_true. Qed.

Lemma isValidTag_safe tagName : isValidTag tagName = true → tagNameSafe tagName = true.
Proof.
  destruct Hsafe as (Htags & _). unfold isValidTag.
  rewrite !orb_true_iff. intros Hvalid. apply Htags.
  destruct Hvalid as [[?%has_elem_of|?%has_elem_of]|?%has_elem_of]; set_solver.
Qed.

Lemma isValidAttribute_noLt tagName name :
  isValidAttribute tagName name = true → noLt name = true.
Proof.
  destruct Hsafe as (_ & Hattrs & Hsvg). unfold isValidAttribute.
  destruct (allowedAttrs !! tagName) as [attrs|] eqn:Hlookup.
  - intros Hin%has_elem_of. by apply (Hattrs tagName attrs).
  - destruct (has allowedSvgTags tagName); [|done].
    intros Hin%has_elem_of. by apply Hsvg.
Qed.

Lemma extra_html_noLt tagName :
  Forall (λ e, noLt e = true) (getExtraAttributes tagName).2.
Proof.
  unfold getExtraAttributes. repeat case_match; cbn [snd];
    repeat constructor.
Qed.

Lemma sanitizeAttributes_noLt baseURL tagName attributes :
  noLt (sanitizeAttributes baseURL tagName attributes).2 = true.
Proof.
  rewrite sanitizeAttributes_spec. cbn [snd].
  apply noLt_Join; [|done]. apply Forall_app. split; [|apply extra_html_noLt].
  apply Forall_forall. intros e [[key value] [-> Hin]]%list_elem_of_fmap.
  apply elem_of_survivors in Hin as (attribute & _ & <- & Hsome).
  apply survivingValue_valid, isValidAttribute_noLt in Hsome.
  unfold formatAttribute, Go.quoted. cbn [fst snd].
  by rewrite !noLt_app, Hsome, noLt_EscapeString.
Qed.

Lemma step_clean baseURL st token :
  clean (buffer st) = true → clean (buffer (step baseURL st token)) = true.
Proof.
  intros Hclean. unfold step.
  pose proof (sanitizeAttributes_noLt baseURL (Data token) (Attr token)) as Hattrs.
  destruct (sanitizeAttributes baseURL (Data token) (Attr token))
    as [attrNames htmlAttributes].
  cbn [snd] in Hattrs.
  destruct (Type_ token); try done.
  - repeat case_match; try done.
    cbn [buffer WriteString]. apply clean_app; [done|].
    apply noLt_clean, noLt_EscapeString.
  - destruct (isValidTag (Data token)) eqn:Hvalid;
      [|by destruct (isBlockedTag (Data token))].
    apply isValidTag_safe in Hvalid.
    destruct (hasRequiredAttributes (Data token) attrNames); [|done].
    assert (clean ("<" ++ Data token ++ " " ++ htmlAttributes ++ ">") = true)
      as Hopen1.
    { apply open_tag_clean; [done|set_solver|]. by rewrite noLt_app, Hattrs. }
    assert (clean ("<" ++ Data token ++ ">") = true) as Hopen2.
    { apply open_tag_clean; [done|set_solver|done]. }
    destruct (isVideoIframe token), (0 <? length attrNames)%nat,
      (Data token =? "iframe");
      cbn [buffer WriteString tagStack parentTag blacklistedTagDepth];
      repeat (apply clean_app; [|done]); done.
  - destruct (Data token =? "iframe"); [done|].
    destruct (isValidTag (Data token)) eqn:Hvalid; cbn [andb];
      [|by destruct (isBlockedTag (Data token))].
    destruct (inList (Data token) (tagStack st));
      [|by destruct (isBlockedTag (Data token))].
    cbn [buffer WriteString]. apply clean_app; [done|].
    apply close_tag_clean. apply isValidTag_safe in Hvalid.
    unfold tagNameSafe in Hvalid. by apply andb_true_iff in Hvalid as [? _].
  - destruct (isValidTag (Data token)) eqn:Hvalid; [|done].
    apply isValidTag_safe in Hvalid.
    destruct (hasRequiredAttributes (Data token) attrNames); [|done].
    destruct (0 <? length attrNames)%nat; cbn [buffer WriteString];
      (apply clean_app; [done|]).
    + apply open_tag_clean; [done|set_solver|]. by rewrite noLt_app, Hattrs.
    + apply (open_tag_clean _ "/" ">"); [done|set_solver|done].
Qed.

Lemma run_clean baseURL st toks :
  clean (buffer st) = true → clean (buffer (run baseURL st toks)) = true.
Proof.
  revert st. induction toks as [|token toks IH]; intros st Hclean; [done|].
  rewrite run_cons. by apply IH, step_clean.
Qed.

(** C1: when the allowlists hold plain names, none of which starts with
    the name of a blocked tag, the string that [Sanitize] returns contains
    none of [<script], [<style] and [<noscript], for every tokenizer, base
    URL and input: tag names come from the allowlist, and text and
    attribute values are escaped. *)
Theorem no_blocked_tag_in_output (tokenize : string → TokenStream)
    (baseURL input : string) :
  Go.Contains (Sanitize tokenize baseURL input) "<script" = false ∧
  Go.Contains (Sanitize tokenize baseURL input) "<style" = false ∧
  Go.Contains (Sanitize tokenize baseURL input) "<noscript" = false.
Proof.
  assert (clean (Sanitize tokenize baseURL input) = true) as Hclean.
  { rewrite Sanitize_run.
    destruct (err (tokenize input)); [|done]. by apply run_clean. }
  split_and!; apply (clean_Contains _ _); try done;
    unfold blockedNames; set_solver.
Qed.

End NoBlockedTag.

Section Dispatcher.

Context {policy : Policy}.

Implicit Types (st : State) (token : Token) (toks : list Token).
Implicit Types (baseURL : string).

(** *** The most recent tag *)

Lemma step_parentTag baseURL st token :
  parentTag (step baseURL st token) =
    if isStartTag token then Data token else parentTag st.
Proof.
  unfold step, isStartTag.
  destruct (Type_ token); repeat case_match; reflexivity.
Qed.

Lemma run_parentTag_no_start baseURL st toks :
  Forall (λ t, isStartTag t = false) toks →
  parentTag (run baseURL st toks) = parentTag st.
Proof.
  intros Hall. revert st.
  induction Hall as [|token toks Hhd _ IH]; intros st; [done|].
  rewrite run_cons, IH, step_parentTag, Hhd. done.
Qed.

Lemma step_text_iframe baseURL st token :
  Type_ token = TextToken → parentTag st = "iframe" → step baseURL st token = st.
Proof.
  intros Hty Hparent. unfold step. rewrite Hty, Hparent. simpl.
  by destruct (0 <? blacklistedTagDepth st)%Z.
Qed.

(** C10: every start-tag token sets the most recent tag to its name, kept
    or not, and no other token changes it; so a text token that comes
    after an iframe start tag, with no start tag in between, leaves the
    state as it is: it is dropped, also when it comes after the end tag of
    the iframe. *)
Theorem text_after_iframe_is_dropped baseURL :
  (∀ st token,
     parentTag (step baseURL st token) =
       if isStartTag token then Data token else parentTag st) ∧
  (∀ st iframe toks text,
     Type_ iframe = StartTagToken → Data iframe = "iframe" →
     Forall (λ t, isStartTag t = false) toks →
     Type_ text = TextToken →
     step baseURL (run baseURL st (iframe :: toks)) text =
       run baseURL st (iframe :: toks)).
Proof.
  split; [apply step_parentTag|].
  intros st iframe toks text Hty Hname Hnone Htext.
  apply step_text_iframe; [done|].
  rewrite run_cons, run_parentTag_no_start by done.
  rewrite step_parentTag. unfold isStartTag. by rewrite Hty.
Qed.

(** *** The open-tag stack *)

(** A token leaves the stack as it is, or pushes its name: then it is a
    start tag of an allowed tag other than iframe. *)
Lemma step_tagStack baseURL st token :
  tagStack (step baseURL st token) = tagStack st ∨
  (tagStack (step baseURL st token) = (tagStack st ++ [Data token])%list ∧
   Type_ token = StartTagToken ∧ isValidTag (Data token) = true ∧
   Data token ≠ "iframe").
Proof.
  unfold step.
  destruct (Type_ token) eqn:Hty; repeat case_match;
    cbn [tagStack WriteString]; try (left; reflexivity).
  all: right; split_and!; try reflexivity; by apply String.eqb_neq.
Qed.








(** *** Iframes

    What the start-tag and end-tag branches do for an iframe; the
    self-closing branch has no such rule. *)

Lemma iframe_end_tag_is_ignored baseURL st token :
  Type_ token = EndTagToken → Data token = "iframe" → step baseURL st token = st.
Proof. intros Hty Hname. unfold step. by rewrite Hty, Hname. Qed.

Lemma iframe_start_tag_is_closed baseURL st token :
  Type_ token = StartTagToken → Data token = "iframe" →
  isValidTag "iframe" = true →
  hasRequiredAttributes "iframe"
    (sanitizeAttributes baseURL "iframe" (Attr token)).1 = true →
  let wrap := isVideoIframe token in
  let names := (sanitizeAttributes baseURL "iframe" (Attr token)).1 in
  let html := (sanitizeAttributes baseURL "iframe" (Attr token)).2 in
  buffer (step baseURL st token) =
    buffer st ++ (if wrap then videoWrapperOpen else EmptyString) ++
    (if (0 <? length names)%nat then "<iframe " ++ html ++ ">" else "<iframe>") ++
    "</iframe>" ++ (if wrap then "</div>" else EmptyString) ∧
  tagStack (step baseURL st token) = tagStack st.
Proof.
  intros Hty Hname Hvalid Hreq. unfold step. rewrite Hty, Hname, Hvalid.
  destruct (sanitizeAttributes baseURL "iframe" (Attr token)) as [names html].
  cbn [fst snd] in *. rewrite Hreq.
  destruct (isVideoIframe token), (0 <? length names)%nat;
    cbn [String.eqb Ascii.eqb Bool.eqb buffer WriteString tagStack];
    rewrite ?append_assoc, ?append_nil_l, ?append_nil_r; done.
Qed.

(** The self-closing branch writes a self-closed iframe, under any policy
    that keeps the iframe. *)
Lemma self_closing_iframe_is_self_closed baseURL st token :
  Type_ token = SelfClosingTagToken → Data token = "iframe" →
  isValidTag "iframe" = true →
  hasRequiredAttributes "iframe"
    (sanitizeAttributes baseURL "iframe" (Attr token)).1 = true →
  step baseURL st token =
    WriteString st
      ("<iframe " ++ (sanitizeAttributes baseURL "iframe" (Attr token)).2 ++ "/>").
Proof.
  intros Hty Hname Hvalid Hreq. unfold step. rewrite Hty, Hname, Hvalid.
  rewrite sanitizeAttributes_spec in *. cbn [fst snd] in *. rewrite Hreq.
  rewrite length_app. cbn [getExtraAttributes String.eqb Ascii.eqb Bool.eqb].
  cbn [orb fst length]. replace (0 <? _ + 2)%nat with true; [done|].
  symmetry. apply Nat.ltb_lt. lia.
Qed.

(** *** The depth counter

    The end tag of a blocked tag decrements the counter whatever its value:
    from the initial state it goes to -1, and the text of the next blocked
    subtree is written, under any policy that does not allow [script]. *)
Lemma stray_close_tag_decrements baseURL :
  blacklistedTagDepth (step baseURL initial (tok EndTagToken "script" [])) = (-1)%Z.
Proof.
  unfold step. cbn [Type_ Data tok tagStack initial inList String.eqb Ascii.eqb Bool.eqb].
  by rewrite andb_false_r.
Qed.

Lemma text_after_stray_close_tag baseURL data :
  isValidTag "script" = false →
  SanitizeTokens baseURL
    (mkStream
       [tok EndTagToken "script" []; tok StartTagToken "script" [];
        tok TextToken data []; tok EndTagToken "script" []] EOF) =
    Go.EscapeString data.
Proof.
  intros Hinvalid. unfold SanitizeTokens. rewrite loop_run.
  cbn [tokens err run fold_left]. unfold step at 4.
  cbn [Type_ Data tok tagStack initial inList String.eqb Ascii.eqb Bool.eqb].
  rewrite Hinvalid. cbn [andb isBlockedTag String.eqb Ascii.eqb Bool.eqb].
  unfold step at 3. cbn [Type_ Data tok]. rewrite Hinvalid.
  cbn [isBlockedTag String.eqb Ascii.eqb Bool.eqb blacklistedTagDepth initial].
  unfold step at 2. cbn [Type_ Data tok blacklistedTagDepth parentTag].
  cbn [String.eqb Ascii.eqb Bool.eqb Go.int_wrap].
  unfold step. cbn [Type_ Data tok]. rewrite Hinvalid.
  by cbn.
Qed.

(** *** Tags that need an attribute *)

Lemma hasRequiredAttributes_true tagName names :
  ¬ lacksRequired tagName names → hasRequiredAttributes tagName names = true.
Proof.
  intros Hnot. destruct (hasRequiredAttributes tagName names) eqn:Hreq; [done|].
  by apply hasRequiredAttributes_false in Hreq.
Qed.

(** C6, amended: a start-tag or self-closing token of an allowed tag that
    lacks its required attribute among the surviving ones ([a] without
    [href], [iframe] or [img] without [src], [source] without [src] and
    [srcset]) writes nothing, pushes nothing and leaves the depth counter
    alone; the one change is that a start-tag token still becomes the most
    recent tag (so the text that follows a dropped iframe start tag is
    suppressed); every other token of an allowed tag is serialized, its name
    right after the opening angle bracket, whatever its surviving
    attributes. *)
Theorem tag_without_required_attribute baseURL st token :
  Type_ token = StartTagToken ∨ Type_ token = SelfClosingTagToken →
  isValidTag (Data token) = true →
  (lacksRequired (Data token)
     (sanitizeAttributes baseURL (Data token) (Attr token)).1 →
   step baseURL st token =
     mkState (buffer st) (tagStack st)
       (if isStartTag token then Data token else parentTag st)
       (blacklistedTagDepth st)) ∧
  (¬ lacksRequired (Data token)
       (sanitizeAttributes baseURL (Data token) (Attr token)).1 →
   ∃ before after,
     (before = EmptyString ∨ before = videoWrapperOpen) ∧
     buffer (step baseURL st token) =
       buffer st ++ before ++ "<" ++ Data token ++ after).
Proof.
  intros Hty Hvalid. unfold step, isStartTag.
  destruct (sanitizeAttributes baseURL (Data token) (Attr token))
    as [names html]. cbn [fst]. split.
  - intros Hlack%hasRequiredAttributes_false.
    destruct Hty as [-> | ->]; rewrite Hvalid, Hlack; [reflexivity|].
    by destruct st.
  - intros Hreq%hasRequiredAttributes_true.
    destruct Hty as [-> | ->]; rewrite Hvalid, Hreq.
    + destruct (isVideoIframe token);
        [exists videoWrapperOpen|exists EmptyString];
        destruct (0 <? length names)%nat, (Data token =? "iframe");
        eexists; (split; [by (left + right)|]);
        cbn [buffer WriteString tagStack parentTag blacklistedTagDepth];
        rewrite ?append_assoc, ?append_nil_l; reflexivity.
    + exists EmptyString.
      destruct (0 <? length names)%nat; eexists; (split; [by left|]);
        cbn [buffer WriteString]; rewrite ?append_assoc, ?append_nil_l;
        reflexivity.
Qed.

End Dispatcher.

(** ** A second pass over the output *)

Lemma EscapeString_app (a b : string) :
  Go.EscapeString (a ++ b) = Go.EscapeString a ++ Go.EscapeString b.
Proof.
  induction a as [|c a IH]; [done|].
  rewrite append_cons. cbn [Go.EscapeString]. by rewrite IH, append_assoc.
Qed.

Section SecondPassProperties.

Context {policy : Policy}.

Implicit Types (st : State) (token : Token) (toks : list Token).
Implicit Types (baseURL : string).

(** The step on a tag, by whether the tag is kept. *)

Lemma step_start_dropped baseURL st token :
  Type_ token = StartTagToken → kept baseURL token = false →
  buffer (step baseURL st token) = buffer st ∧
  tagStack (step baseURL st token) = tagStack st.
Proof.
  intros Hty Hkept. unfold step, kept in *. rewrite Hty.
  destruct (isValidTag (Data token)); cbn [andb] in Hkept.
  - destruct (sanitizeAttributes baseURL (Data token) (Attr token)) as [names html].
    cbn [fst] in Hkept. by rewrite Hkept.
  - by destruct (isBlockedTag (Data token)).
Qed.

Lemma step_start_kept baseURL st token :
  Type_ token = StartTagToken → kept baseURL token = true →
  Data token ≠ "iframe" →
  step baseURL st token =
    mkState (buffer st ++ openTag baseURL token ">")
      (tagStack st ++ [Data token]) (Data token) (blacklistedTagDepth st).
Proof.
  intros Hty [Hvalid Hreq]%andb_prop Hne%String.eqb_neq.
  unfold step, openTag, isVideoIframe. rewrite Hty, Hvalid, Hne.
  destruct (sanitizeAttributes baseURL (Data token) (Attr token)) as [names html].
  cbn [fst] in Hreq. rewrite Hreq.
  by destruct (Nat.ltb 0 (length names)).
Qed.

Lemma step_iframe_kept baseURL st token :
  Type_ token = StartTagToken → kept baseURL token = true →
  Data token = "iframe" →
  step baseURL st token =
    mkState
      (if isVideoIframe token
       then buffer st ++ videoWrapperOpen ++ openTag baseURL token ">" ++
            "</iframe>" ++ "</div>"
       else buffer st ++ openTag baseURL token ">" ++ "</iframe>")
      (tagStack st) "iframe" (blacklistedTagDepth st).
Proof.
  intros Hty [Hvalid Hreq]%andb_prop Hname.
  unfold step, openTag. rewrite Hty, Hvalid, Hname.
  rewrite Hname in Hreq.
  destruct (sanitizeAttributes baseURL "iframe" (Attr token)) as [names html].
  cbn [fst] in Hreq. rewrite Hreq. change ("iframe" =? "iframe") with true.
  destruct (isVideoIframe token), (Nat.ltb 0 (length names));
    unfold WriteString; cbn [buffer tagStack parentTag blacklistedTagDepth];
    by rewrite !append_assoc.
Qed.

(** The tokens of the wrapper, when [div] is not an allowed tag. *)
Lemma step_wrapper baseURL st token :
  Type_ token ≠ TextToken → Data token = "div" → isValidTag "div" = false →
  buffer (step baseURL st token) = buffer st ∧
  tagStack (step baseURL st token) = tagStack st ∧
  blacklistedTagDepth (step baseURL st token) = blacklistedTagDepth st.
Proof.
  intros Hty Hname Hdiv. unfold step. rewrite Hname, Hdiv.
  change (isBlockedTag "div") with false.
  change ("div" =? "iframe") with false.
  by destruct (Type_ token).
Qed.

Lemma step_self_closing baseURL st token :
  Type_ token = SelfClosingTagToken →
  step baseURL st token =
    if kept baseURL token then WriteString st (openTag baseURL token "/>") else st.
Proof.
  intros Hty. unfold step, kept, openTag. rewrite Hty.
  destruct (isValidTag (Data token)); [|done]. cbn [andb].
  destruct (sanitizeAttributes baseURL (Data token) (Attr token)) as [names html].
  cbn [fst]. destruct (hasRequiredAttributes (Data token) names); [|done].
  by destruct (Nat.ltb 0 (length names)).
Qed.

(** The attributes of a written tag survive a second pass as they are. *)

Lemma survivors_stable baseURL tagName (kvs : list (string * string)) :
  forallb (stable baseURL tagName) kvs = true →
  survivors baseURL tagName (map attributeOf kvs) = kvs.
Proof.
  induction kvs as [|[key value] kvs IH]; [done|]. cbn [forallb].
  intros [Hkv Hkvs]%andb_prop. apply bool_decide_eq_true in Hkv.
  cbn [map survivors omap list_omap]. rewrite Hkv. cbn [option_map attributeOf Key fst snd].
  fold (survivors baseURL tagName (map attributeOf kvs)). by rewrite IH.
Qed.

Lemma survivors_written baseURL token :
  (∀ name, name ∈ (getExtraAttributes (Data token)).1 →
           isValidAttribute (Data token) name = false) →
  forallb (stable baseURL (Data token))
    (survivors baseURL (Data token) (Attr token)) = true →
  survivors baseURL (Data token) (Attr (writtenTag baseURL token)) =
    survivors baseURL (Data token) (Attr token).
Proof.
  intros Hinjected Hstable. cbn [writtenTag Attr]. unfold survivors at 1.
  rewrite omap_app.
  fold (survivors baseURL (Data token)
          (map attributeOf (survivors baseURL (Data token) (Attr token)))).
  fold (survivors baseURL (Data token) (injectedAttributes (Data token))).
  rewrite survivors_stable by done.
  rewrite (survivors_invalid _ _ (injectedAttributes _)), app_nil_r; [done|].
  apply Forall_forall. intros attribute Hin. apply Hinjected.
  rewrite <- injectedAttributes_names. by apply list_elem_of_fmap_2.
Qed.

Lemma sanitizeAttributes_written baseURL token :
  (∀ name, name ∈ (getExtraAttributes (Data token)).1 →
           isValidAttribute (Data token) name = false) →
  forallb (stable baseURL (Data token))
    (survivors baseURL (Data token) (Attr token)) = true →
  sanitizeAttributes baseURL (Data token) (Attr (writtenTag baseURL token)) =
    sanitizeAttributes baseURL (Data token) (Attr token).
Proof.
  intros Hinjected Hstable.
  by rewrite !sanitizeAttributes_spec, survivors_written.
Qed.

Lemma kept_written baseURL token :
  (∀ name, name ∈ (getExtraAttributes (Data token)).1 →
           isValidAttribute (Data token) name = false) →
  forallb (stable baseURL (Data token))
    (survivors baseURL (Data token) (Attr token)) = true →
  kept baseURL (writtenTag baseURL token) = kept baseURL token ∧
  ∀ close, openTag baseURL (writtenTag baseURL token) close =
             openTag baseURL token close.
Proof.
  intros Hinjected Hstable. unfold kept, openTag.
  change (Data (writtenTag baseURL token)) with (Data token).
  by rewrite sanitizeAttributes_written.
Qed.

(** Text tokens. *)

Lemma step_text baseURL st token :
  Type_ token = TextToken →
  step baseURL st token =
    if (0 <? blacklistedTagDepth st)%Z then st
    else if parentTag st =? "iframe" then st
    else WriteString st (Go.EscapeString (Data token)).
Proof. intros Hty. unfold step. by rewrite Hty. Qed.

Lemma step_text_app baseURL st token next :
  Type_ token = TextToken → Type_ next = TextToken →
  step baseURL st (mkToken TextToken (Data token ++ Data next) []) =
    step baseURL (step baseURL st token) next.
Proof.
  intros Hty Hnext. rewrite !step_text by done. cbn [Data].
  destruct (0 <? blacklistedTagDepth st)%Z eqn:Hdepth; [by rewrite Hdepth|].
  destruct (parentTag st =? "iframe") eqn:Hparent.
  - by rewrite Hdepth, Hparent.
  - cbn [WriteString blacklistedTagDepth parentTag]. rewrite Hdepth, Hparent.
    unfold WriteString. cbn [buffer tagStack parentTag blacklistedTagDepth].
    by rewrite EscapeString_app, append_assoc.
Qed.

Lemma step_text_data baseURL st token :
  Type_ token = TextToken →
  step baseURL st (mkToken TextToken (Data token) []) = step baseURL st token.
Proof. intros Hty. by rewrite !step_text. Qed.

Lemma run_mergeText baseURL st toks :
  run baseURL st (mergeText toks) = run baseURL st toks.
Proof.
  revert st. induction toks as [|token toks IH]; intros st; [done|].
  cbn [mergeText]. destruct (Type_ token) eqn:Hty;
    try (by rewrite !run_cons, IH).
  rewrite (run_cons _ _ token), <- IH.
  destruct (mergeText toks) as [|next more]; [by rewrite run_cons, step_text_data|].
  destruct (Type_ next) eqn:Hnext;
    try (by rewrite run_cons, step_text_data).
  by rewrite !run_cons, step_text_app.
Qed.

(** The most recent start tag after a stream. *)

Lemma textFollowsIframe_app (parent : string) baseURL st toks1 toks2 :
  parentTag st = parent →
  textFollowsIframe parent (toks1 ++ toks2) =
    textFollowsIframe parent toks1 ||
    textFollowsIframe (parentTag (run baseURL st toks1)) toks2.
Proof.
  revert parent st. induction toks1 as [|token toks1 IH]; intros parent st <-; [done|].
  cbn [app textFollowsIframe]. rewrite run_cons.
  pose proof (step_parentTag baseURL st token) as Hparent.
  unfold isStartTag in Hparent.
  destruct (Type_ token); rewrite ?(IH _ (step baseURL st token)), ?orb_assoc; try done.
Qed.

(** One token of the first pass and what the second pass does with what
    was written for it. *)
Lemma step_written baseURL first second token :
  (∀ tagName name, name ∈ (getExtraAttributes tagName).1 →
                   isValidAttribute tagName name = false) →
  resanitizable baseURL token = true →
  textFollowsIframe (parentTag second) (written baseURL first token) = false →
  agree first second →
  agree (step baseURL first token) (run baseURL second (written baseURL first token)).
Proof.
  intros Hinjected Hre Htext (Hbuffer & Hstack & Hdepth).
  unfold written, resanitizable in *.
  destruct (Type_ token) eqn:Hty.
  - (* text *)
    rewrite step_text by done.
    destruct (0 <? blacklistedTagDepth first)%Z; [done|].
    destruct (parentTag first =? "iframe"); [done|].
    cbn [textFollowsIframe Type_] in Htext.
    apply orb_false_elim in Htext as [Hparent _].
    rewrite run_cons, step_text by done. cbn [run fold_left].
    rewrite Hdepth, Hparent. unfold agree, WriteString. cbn. by rewrite Hbuffer.
  - (* start tag *)
    destruct (kept baseURL token) eqn:Hkept.
    + apply andb_prop in Hre as [Hstable Hvideo].
      unfold isStartTag in Hvideo. rewrite Hty in Hvideo. cbn [negb orb] in Hvideo.
      apply andb_prop in Hvideo as [Hvideo%Bool.eqb_prop Hdiv].
      destruct (kept_written baseURL token (Hinjected _) Hstable) as [Hkept' Hopen].
      rewrite Hkept in Hkept'.
      destruct (String.eqb_spec (Data token) "iframe") as [Hname|Hname].
      * destruct (isVideoIframe token) eqn:Hwrap; cbn [negb orb] in Hdiv.
        -- apply negb_true_iff in Hdiv.
           cbn [app]. rewrite !run_cons. cbn [run fold_left].
           set (div := mkToken StartTagToken "div" _).
           destruct (step_wrapper baseURL second div ltac:(done) eq_refl Hdiv)
             as (Hbuffer' & Hstack' & Hdepth').
           rewrite (iframe_end_tag_is_ignored baseURL _
                      (mkToken EndTagToken "iframe" [])) by done.
           unfold agree.
           destruct (step_wrapper baseURL
                       (step baseURL (step baseURL second div) (writtenTag baseURL token))
                       (mkToken EndTagToken "div" []) ltac:(done) eq_refl Hdiv)
             as (-> & -> & ->).
           rewrite (step_iframe_kept baseURL first token),
             (step_iframe_kept baseURL _ (writtenTag baseURL token)) by done.
           rewrite Hopen, Hvideo, Hwrap.
           cbn [buffer tagStack blacklistedTagDepth].
           by rewrite Hbuffer', Hstack', Hdepth', Hbuffer.
        -- rewrite !run_cons. cbn [run fold_left].
           rewrite (iframe_end_tag_is_ignored baseURL _
                      (mkToken EndTagToken "iframe" [])) by done.
           rewrite !step_iframe_kept by done. rewrite Hopen, Hvideo, Hwrap.
           unfold agree. cbn. by rewrite Hbuffer.
      * rewrite run_cons. cbn [run fold_left].
        rewrite !step_start_kept by done. rewrite Hopen.
        unfold agree. cbn. by rewrite Hbuffer, Hstack.
    + destruct (step_start_dropped baseURL first token Hty Hkept) as [Hb Hs].
      unfold agree. cbn [run fold_left]. by rewrite Hb, Hs.
  - (* end tag *)
    unfold step at 1. rewrite Hty.
    destruct (Data token =? "iframe") eqn:Hname; [done|].
    destruct (isValidTag (Data token) && inList (Data token) (tagStack first)) eqn:Hin.
    + rewrite run_cons. cbn [run fold_left]. unfold step.
      cbn [Type_ Data]. rewrite Hname, Hstack, Hin.
      unfold agree, WriteString. cbn. by rewrite Hbuffer.
    + by destruct (isBlockedTag (Data token)).
  - (* self-closing tag *)
    rewrite step_self_closing by done.
    destruct (kept baseURL token) eqn:Hkept; [|done].
    apply andb_prop in Hre as [Hstable _].
    destruct (kept_written baseURL token (Hinjected _) Hstable) as [Hkept' Hopen].
    rewrite run_cons. cbn [run fold_left].
    rewrite step_self_closing by done. rewrite Hkept', Hkept, Hopen.
    unfold agree, WriteString. cbn. by rewrite Hbuffer.
  - unfold step. by rewrite Hty.
  - unfold step. by rewrite Hty.
Qed.

Lemma run_written baseURL toks first second :
  (∀ tagName name, name ∈ (getExtraAttributes tagName).1 →
                   isValidAttribute tagName name = false) →
  forallb (resanitizable baseURL) toks = true →
  textFollowsIframe (parentTag second) (writtenTokens baseURL first toks) = false →
  agree first second →
  agree (run baseURL first toks)
    (run baseURL second (writtenTokens baseURL first toks)).
Proof.
  intros Hinjected. revert first second.
  induction toks as [|token toks IH]; intros first second Hre Htext Hagree;
    [done|].
  cbn [forallb] in Hre. apply andb_prop in Hre as [Hre Hres].
  cbn [writtenTokens] in *.
  rewrite (textFollowsIframe_app _ baseURL second) in Htext by done.
  apply orb_false_elim in Htext as [Htext Htexts].
  rewrite run_cons, run_app. apply IH; try done.
  by apply step_written.
Qed.

(** The values that the attribute policy writes are stable when URL
    resolution gives its own results back; the rewritten srcset of an img
    or a source apart. *)
Lemma surviving_value_is_stable baseURL tagName attribute value :
  (∀ url, AbsoluteUrl url baseURL ≠ EmptyString →
          AbsoluteUrl (AbsoluteUrl url baseURL) baseURL = AbsoluteUrl url baseURL) →
  ((tagName =? "img") || (tagName =? "source")) && (Key attribute =? "srcset") = false →
  survivingValue baseURL tagName attribute = Some value →
  stable baseURL tagName (Key attribute, value) = true.
Proof.
  intros Hresolve Hsrcset Hsome. apply bool_decide_eq_true.
  unfold survivingValue in *. cbn [attributeOf Key Val fst snd].
  rewrite Hsrcset in *.
  destruct (isValidAttribute tagName (Key attribute)); [|done].
  destruct (isExternalResourceAttribute (Key attribute)); [|done].
  destruct (tagName =? "iframe").
  { destruct (isValidIframeSource baseURL (Val attribute)) eqn:Hsrc; [|done].
    injection Hsome as <-. by rewrite Hsrc. }
  destruct ((tagName =? "img") && (Key attribute =? "src")) eqn:Himg; cbn [andb] in *.
  - destruct (isValidDataAttribute (Val attribute)) eqn:Hdata.
    { injection Hsome as <-. by rewrite Hdata. }
    destruct (isValidDataAttribute value); [done|].
    destruct (String.eqb_spec (AbsoluteUrl (Val attribute) baseURL) EmptyString)
      as [|Hne]; [done|].
    destruct (hasValidURIScheme (AbsoluteUrl (Val attribute) baseURL) &&
              negb (isBlockedResource (AbsoluteUrl (Val attribute) baseURL)))
      eqn:Hok; [|done].
    injection Hsome as <-. rewrite Hresolve by done.
    apply String.eqb_neq in Hne. by rewrite Hne, Hok.
  - destruct (String.eqb_spec (AbsoluteUrl (Val attribute) baseURL) EmptyString)
      as [|Hne]; [done|].
    destruct (hasValidURIScheme (AbsoluteUrl (Val attribute) baseURL) &&
              negb (isBlockedResource (AbsoluteUrl (Val attribute) baseURL)))
      eqn:Hok; [|done].
    injection Hsome as <-. rewrite Hresolve by done.
    apply String.eqb_neq in Hne. by rewrite Hne, Hok.
Qed.

(** C8, amended: [Sanitize] is not idempotent in general.  A second pass
    returns what the first returned,
    Sanitize(base, Sanitize(base, x)) = Sanitize(base, x), for every input
    [x] on which the first pass reaches the end of the input, writes every
    kept tag with attribute values that a second pass over the attribute
    leaves as they are, keeps a video iframe only when [div] is not an
    allowed tag (an iframe being a video iframe by the attributes written
    exactly when it is one by those of the input), and writes no text
    after the start tag of an iframe before the next start tag it keeps;
    given that no injected attribute name is on the allowlist of its tag,
    and that the tokenizer reads the output back to its end as the tokens
    written, the text between two tags as one token. *)
Theorem second_pass_writes_the_same (tokenize : string → TokenStream) baseURL input :
  (∀ tagName name, name ∈ (getExtraAttributes tagName).1 →
                   isValidAttribute tagName name = false) →
  err (tokenize input) = EOF →
  forallb (resanitizable baseURL) (tokens (tokenize input)) = true →
  textFollowsIframe EmptyString
    (writtenTokens baseURL initial (tokens (tokenize input))) = false →
  err (tokenize (Sanitize tokenize baseURL input)) = EOF →
  mergeText (tokens (tokenize (Sanitize tokenize baseURL input))) =
    mergeText (writtenTokens baseURL initial (tokens (tokenize input))) →
  Sanitize tokenize baseURL (Sanitize tokenize baseURL input) =
    Sanitize tokenize baseURL input.
Proof.
  intros Hinjected Heof Hre Htext Heof' Hback.
  rewrite (Sanitize_run tokenize baseURL (Sanitize _ _ _)), Heof'.
  rewrite <- run_mergeText, Hback, run_mergeText.
  rewrite (Sanitize_run tokenize baseURL input), Heof.
  by destruct (run_written baseURL (tokens (tokenize input)) initial initial)
    as (-> & _).
Qed.

End SecondPassProperties.

(** ** Further properties of the dispatcher *)

Lemma int_wrap_small (z : Z) :
  (- 2 ^ 63 ≤ z < 2 ^ 63)%Z → Go.int_wrap z = z.
Proof. intros Hz. unfold Go.int_wrap. rewrite Z.mod_small; lia. Qed.

Section Stream.

Context {policy : Policy}.

Implicit Types (st : State) (token : Token) (toks : list Token).
Implicit Types (baseURL : string).

Lemma step_inert baseURL st token : inert token = true → step baseURL st token = st.
Proof.
  unfold inert, step. destruct (Type_ token); try discriminate; try reflexivity.
  - intros [Hiframe|[Hvalid Hblocked]%andb_true_iff]%orb_true_iff.
    + by rewrite Hiframe.
    + apply negb_true_iff in Hvalid, Hblocked. rewrite Hvalid, Hblocked.
      by destruct (Data token =? "iframe").
  - intros Hvalid%negb_true_iff. by rewrite Hvalid.
Qed.

(** X1: comments, doctypes, iframe end tags, end tags of tags that are
    neither allowed nor blocked and self-closing tags that are not allowed
    (blocked ones included) have no effect: the state after a stream is the
    state after the stream without them. *)
Theorem inert_tokens_are_skipped baseURL st toks :
  run baseURL st (List.filter (λ token, negb (inert token)) toks) =
    run baseURL st toks.
Proof.
  revert st. induction toks as [|token toks IH]; intros st; [done|].
  cbn [List.filter]. destruct (inert token) eqn:Hinert; cbn [negb].
  - by rewrite IH, run_cons, step_inert.
  - by rewrite !run_cons, IH.
Qed.

Lemma step_text_blocked baseURL st token :
  Type_ token = TextToken → (0 < blacklistedTagDepth st)%Z →
  step baseURL st token = st.
Proof.
  intros Hty Hdepth. unfold step. rewrite Hty.
  apply Z.ltb_lt in Hdepth. by rewrite Hdepth.
Qed.

Lemma run_texts_blocked baseURL st texts :
  Forall (λ token, Type_ token = TextToken) texts →
  (0 < blacklistedTagDepth st)%Z →
  run baseURL st texts = st.
Proof.
  induction 1 as [|token texts Hty _ IH]; intros Hdepth; [done|].
  by rewrite run_cons, step_text_blocked, IH.
Qed.

(** X2: the text of a blocked subtree is suppressed.  From a state whose
    depth counter is not negative, the start tag of a blocked tag, any
    number of text tokens and the end tag of a blocked tag write nothing and
    restore the counter; only the most recent tag changes. *)
Theorem blocked_subtree_is_suppressed baseURL st opening texts closing :
  Type_ opening = StartTagToken → Type_ closing = EndTagToken →
  isBlockedTag (Data opening) = true → isBlockedTag (Data closing) = true →
  isValidTag (Data opening) = false → isValidTag (Data closing) = false →
  Forall (λ token, Type_ token = TextToken) texts →
  (0 ≤ blacklistedTagDepth st < 2 ^ 63 - 1)%Z →
  run baseURL st (opening :: texts ++ [closing]) =
    mkState (buffer st) (tagStack st) (Data opening) (blacklistedTagDepth st).
Proof.
  intros Hopen Hclose Hblocked1 Hblocked2 Hinvalid1 Hinvalid2 Htexts Hdepth.
  rewrite run_cons, run_app.
  assert (step baseURL st opening =
          mkState (buffer st) (tagStack st) (Data opening)
            (blacklistedTagDepth st + 1)) as ->.
  { unfold step. rewrite Hopen, Hinvalid1, Hblocked1. cbn [blacklistedTagDepth].
    by rewrite int_wrap_small by lia. }
  rewrite (run_texts_blocked baseURL _ texts)
    by (cbn [blacklistedTagDepth]; done || lia).
  cbn [run fold_left]. unfold step. rewrite Hclose, Hinvalid2, Hblocked2.
  cbn [andb buffer tagStack parentTag blacklistedTagDepth].
  assert ((Data closing =? "iframe") = false) as ->.
  { apply String.eqb_neq. intros Heq. rewrite Heq in Hblocked2. discriminate. }
  f_equal. rewrite int_wrap_small by lia. lia.
Qed.

(** The names on the open-tag stack are names of start tags of the stream. *)
Lemma run_tagStack_names baseURL st toks name :
  name ∈ tagStack (run baseURL st toks) →
  name ∈ tagStack st ∨
  ∃ token, token ∈ toks ∧ Type_ token = StartTagToken ∧ Data token = name.
Proof.
  revert st. induction toks as [|token toks IH]; intros st Hin; [by left|].
  rewrite run_cons in Hin. apply IH in Hin as [Hin|(token' & Hin & Hty & Hname)].
  - destruct (step_tagStack baseURL st token) as [Hsame|(Hpush & Hty & _)].
    + left. by rewrite <- Hsame.
    + rewrite Hpush in Hin. apply elem_of_app in Hin as [Hin|Hin]; [by left|].
      apply list_elem_of_singleton in Hin as ->.
      right. exists token. split_and!; [left|done|done].
  - right. exists token'. split_and!; [by right|done|done].
Qed.

(** X3: no close tag without a start tag.  When no start-tag token of the
    stream so far has the name of an end-tag token, the end-tag token writes
    nothing. *)
Theorem end_tag_without_start_tag_writes_nothing baseURL toks closing :
  Type_ closing = EndTagToken →
  Forall (λ token, ¬ (Type_ token = StartTagToken ∧ Data token = Data closing)) toks →
  buffer (step baseURL (run baseURL initial toks) closing) =
    buffer (run baseURL initial toks).
Proof.
  intros Hty Hnone. unfold step. rewrite Hty.
  destruct (inList (Data closing) (tagStack (run baseURL initial toks))) eqn:Hin.
  - apply inList_elem_of, run_tagStack_names in Hin
      as [Hin|(token & Hin & Htoken)].
    + by apply elem_of_nil in Hin.
    + rewrite Forall_forall in Hnone. by destruct (Hnone token Hin).
  - rewrite andb_false_r. by repeat case_match.
Qed.

Lemma step_buffer_extends baseURL st token :
  ∃ chunk, buffer (step baseURL st token) = buffer st ++ chunk.
Proof.
  unfold step. destruct (Type_ token); repeat case_match;
    cbn [buffer WriteString tagStack parentTag blacklistedTagDepth];
    first [ by exists EmptyString; rewrite append_nil_r
          | eexists; rewrite ?append_assoc; reflexivity ].
Qed.

Lemma run_buffer_extends baseURL st toks :
  ∃ chunk, buffer (run baseURL st toks) = buffer st ++ chunk.
Proof.
  revert st. induction toks as [|token toks IH]; intros st.
  - exists EmptyString. by rewrite append_nil_r.
  - rewrite run_cons. destruct (IH (step baseURL st token)) as [chunk2 ->].
    destruct (step_buffer_extends baseURL st token) as [chunk1 ->].
    exists (chunk1 ++ chunk2). by rewrite append_assoc.
Qed.

(** X4: the output only grows: what is returned for a stream that ends
    normally starts with what is returned for any prefix of the stream. *)
Theorem output_of_prefix_is_prefix baseURL toks1 toks2 :
  ∃ suffix,
    SanitizeTokens baseURL (mkStream (toks1 ++ toks2) EOF) =
      SanitizeTokens baseURL (mkStream toks1 EOF) ++ suffix.
Proof.
  unfold SanitizeTokens. cbn [tokens err]. rewrite !loop_run, run_app.
  apply run_buffer_extends.
Qed.

Lemma step_depth baseURL st token :
  blacklistedTagDepth (step baseURL st token) = blacklistedTagDepth st ∨
  blacklistedTagDepth (step baseURL st token) =
    Go.int_wrap (blacklistedTagDepth st + 1) ∨
  blacklistedTagDepth (step baseURL st token) =
    Go.int_wrap (blacklistedTagDepth st - 1).
Proof.
  unfold step. destruct (Type_ token); repeat case_match;
    cbn [buffer WriteString tagStack parentTag blacklistedTagDepth];
    first [ by left | by right; left | by right; right ].
Qed.

(** X5: the depth counter moves by at most one per token, so it stays
    within the length of the stream of its start value and never wraps
    around on a stream of fewer than 2^63 tokens. *)
Theorem depth_is_bounded_by_stream_length baseURL st toks :
  (Z.abs (blacklistedTagDepth st) + Z.of_nat (length toks) < 2 ^ 63)%Z →
  (Z.abs (blacklistedTagDepth (run baseURL st toks)) ≤
   Z.abs (blacklistedTagDepth st) + Z.of_nat (length toks))%Z.
Proof.
  revert st. induction toks as [|token toks IH]; intros st Hbound.
  - cbn [run fold_left length]. lia.
  - rewrite run_cons. cbn [length] in *.
    assert (Z.abs (blacklistedTagDepth (step baseURL st token)) ≤
            Z.abs (blacklistedTagDepth st) + 1)%Z as Hstep.
    { destruct (step_depth baseURL st token) as [->|[->| ->]];
        rewrite ?int_wrap_small by lia; lia. }
    etrans; [apply IH|]; lia.
Qed.

End Stream.

(** ** Further properties of the attribute policy *)

(** X6: the map of required attributes may be enumerated in any order:
    the loop of [hasRequiredAttributes] returns the same over every
    permutation of its entries. *)
Theorem required_attributes_in_any_map_order (order : list (string * list string))
    (tagName : string) (names : list string) :
  order ≡ₚ elements →
  hasRequiredAttributesIn order tagName names = hasRequiredAttributes tagName names.
Proof. apply hasRequiredAttributes_any_order. Qed.

Lemma prefix_app (p rest : string) : String.prefix p (p ++ rest) = true.
Proof.
  induction p as [|c p IH]; [by destruct rest|].
  rewrite append_cons, prefix_cons, IH. by rewrite Ascii.eqb_refl.
Qed.


Lemma Contains_app (a sub b : string) : Go.Contains (a ++ sub ++ b) sub = true.
Proof.
  induction a as [|c a IH].
  - rewrite append_nil_l. destruct (sub ++ b) eqn:Heq; cbn [Go.Contains];
      rewrite <- Heq, prefix_app; reflexivity.
  - rewrite append_cons. cbn [Go.Contains]. rewrite IH. apply orb_true_r.
Qed.

Lemma isBlockedResource_fragment (src fragment : string) :
  fragment ∈ blockedFragments → Go.Contains src fragment = true →
  isBlockedResource src = true.
Proof.
  intros Hin Hcontains. unfold blockedFragments in Hin.
  unfold isBlockedResource.
  repeat (apply elem_of_cons in Hin as [->|Hin]);
    [..|by apply elem_of_nil in Hin];
    rewrite ?Hcontains; repeat case_match; reflexivity.
Qed.

(** The loop of [isValidIframeSource] over the list of domains. *)
Lemma whitelist_loop_elem_of (domain : string) (l : list string) :
  (fix loop (l : list string) : bool :=
     match l with
     | [] => false
     | safeDomain :: rest => if safeDomain =? domain then true else loop rest
     end) l = true ↔ domain ∈ l.
Proof.
  induction l as [|d l IH].
  - split; [discriminate|]. by intros ?%elem_of_nil.
  - rewrite elem_of_cons. destruct (String.eqb_spec d domain) as [->|Hne].
    + split; auto.
    + rewrite IH. split; [auto|]. intros [->|]; done.
Qed.

Lemma videoWhitelist_lookup (domain : string) :
  default false (videoWhitelist !! domain) = true → domain ∈ iframeWhitelist.
Proof.
  unfold videoWhitelist, iframeWhitelist.
  destruct (_ !! domain) as [[|]|] eqn:Hlookup;
    [intros _|discriminate|discriminate].
  repeat (apply lookup_insert_Some in Hlookup as [[<- _]|[_ Hlookup]];
          [solve [repeat constructor]|]).
  by apply lookup_empty_Some in Hlookup.
Qed.

Lemma Join_app (l1 l2 : list string) (sep : string) :
  l1 ≠ [] → l2 ≠ [] →
  Go.Join (l1 ++ l2)%list sep = Go.Join l1 sep ++ sep ++ Go.Join l2 sep.
Proof.
  intros Hl1 Hl2. induction l1 as [|e l1 IH]; [done|].
  destruct l1 as [|e' l1].
  - destruct l2 as [|e2 l2]; [done|]. reflexivity.
  - change ((e :: e' :: l1) ++ l2)%list with (e :: e' :: (l1 ++ l2))%list.
    rewrite !Join_cons. change (e' :: (l1 ++ l2))%list with ((e' :: l1) ++ l2)%list.
    rewrite IH by done. by rewrite !append_assoc.
Qed.

Lemma noMarkup_app (a b : string) : noMarkup (a ++ b) = noMarkup a && noMarkup b.
Proof.
  induction a as [|c a IH]; [done|].
  rewrite append_cons. cbn [noMarkup]. by rewrite IH, andb_assoc.
Qed.

Lemma noMarkup_escapeByte (c : ascii) : noMarkup (Go.escapeByte c) = true.
Proof.
  unfold Go.escapeByte. repeat case_match; try reflexivity.
  cbn [noMarkup]. rewrite andb_true_r. unfold isMarkupByte.
  repeat match goal with
         | H : Ascii.eqb c _ = false |- _ => rewrite H; clear H
         end.
  reflexivity.
Qed.

Lemma splitCommaSpaces_single (value : string) :
  hasCommaSpace value = false → Go.splitCommaSpaces false value = [value].
Proof.
  induction value as [|c value IH]; [done|]. cbn [hasCommaSpace Go.splitCommaSpaces].
  intros [Hc Hrest]%orb_false_iff. rewrite Hc. cbn [andb].
  by rewrite IH.
Qed.

Section MoreAttributes.

Context {policy : Policy}.

(** X7: a [srcset] attribute that the allowlist permits is never dropped
    and never checked against the scheme allowlist or the blocklist: on
    [img] and [source] it is emitted with the rewritten value, also when no
    candidate is left, and on any other tag with its value as it is.  So a
    [source] with a permitted [srcset] always has its required attribute. *)
Theorem srcset_always_survives baseURL tagName namespace value :
  isValidAttribute tagName "srcset" = true →
  survivingValue baseURL tagName (mkAttribute namespace "srcset" value) =
    Some (if (tagName =? "img") || (tagName =? "source")
          then sanitizeSrcsetAttr baseURL value else value) ∧
  (tagName = "source" →
   ∀ attributes,
     mkAttribute namespace "srcset" value ∈ attributes →
     hasRequiredAttributes "source"
       (sanitizeAttributes baseURL "source" attributes).1 = true).
Proof.
  intros Hvalid.
  assert (survivingValue baseURL tagName (mkAttribute namespace "srcset" value) =
          Some (if (tagName =? "img") || (tagName =? "source")
                then sanitizeSrcsetAttr baseURL value else value)) as Hsurvives.
  { unfold survivingValue. cbn [Key Val]. rewrite Hvalid.
    change (isExternalResourceAttribute "srcset") with false.
    change ("srcset" =? "srcset") with true. by rewrite andb_true_r. }
  split; [done|]. intros -> attributes Hin.
  apply hasRequiredAttributes_true. rewrite sanitizeAttributes_spec. cbn [fst].
  intros [[? _]|[[? _]|[[? _]|(_ & _ & Hsrcset)]]]; try discriminate.
  apply Hsrcset, elem_of_app. left.
  apply list_elem_of_fmap. eexists ("srcset", _). split; [reflexivity|].
  apply elem_of_survivors. eexists. split_and!; [exact Hin|done|exact Hsurvives].
Qed.


(** X9: the blocklist is a list of fragments looked for anywhere in the
    resolved URL: an [href], [src], [poster] or [cite] whose resolved URL
    contains one of them is dropped, on every tag but [iframe] and but the
    [data:] image [src] of an [img]. *)
Theorem blocked_resource_is_dropped baseURL tagName attribute fragment before after :
  fragment ∈ blockedFragments →
  isExternalResourceAttribute (Key attribute) = true →
  tagName ≠ "iframe" →
  ¬ (tagName = "img" ∧ Key attribute = "src" ∧
     isValidDataAttribute (Val attribute) = true) →
  AbsoluteUrl (Val attribute) baseURL = before ++ fragment ++ after →
  isBlockedResource (before ++ fragment ++ after) = true ∧
  survivingValue baseURL tagName attribute = None.
Proof.
  intros Hin Hexternal Hne Hdata Hresolved.
  assert (isBlockedResource (before ++ fragment ++ after) = true) as Hblocked
    by (eapply isBlockedResource_fragment; [done|apply Contains_app]).
  split; [done|]. unfold survivingValue. rewrite Hexternal.
  assert ((tagName =? "img") && (Key attribute =? "src") &&
          isValidDataAttribute (Val attribute) = false) as ->.
  { apply not_true_is_false. intros [[Htag Hkey]%andb_prop Hvalue]%andb_prop.
    apply String.eqb_eq in Htag, Hkey. by apply Hdata. }
  apply String.eqb_neq in Hne. rewrite Hne.
  destruct (isValidAttribute tagName (Key attribute)); [|done].
  assert (((tagName =? "img") || (tagName =? "source")) &&
          (Key attribute =? "srcset") = false) as ->.
  { destruct (String.eqb_spec (Key attribute) "srcset") as [Hkey|_];
      [|apply andb_false_r].
    rewrite Hkey in Hexternal. discriminate. }
  rewrite Hresolved, Hblocked, andb_false_r.
  by destruct (_ =? EmptyString).
Qed.

(** X10: an iframe source is accepted exactly when its domain is the
    domain of the base URL or on the list of embed domains; the video
    domains are among the embed domains, so the first [src] of an iframe
    that gets the video wrapper is accepted under every base URL. *)
Theorem iframe_source_is_checked_by_domain baseURL src :
  (isValidIframeSource baseURL src = true ↔
   URLDomain baseURL = URLDomain src ∨ URLDomain src ∈ iframeWhitelist) ∧
  (∀ token,
     isVideoIframe token = true →
     ∃ attribute, attribute ∈ Attr token ∧ Key attribute = "src" ∧
       ∀ base, isValidIframeSource base (Val attribute) = true).
Proof.
  assert (∀ base value,
            isValidIframeSource base value = true ↔
            URLDomain base = URLDomain value ∨ URLDomain value ∈ iframeWhitelist)
    as Hiff.
  { intros base value. unfold isValidIframeSource.
    destruct (String.eqb_spec (URLDomain base) (URLDomain value)) as [Heq|Hne].
    - split; auto.
    - rewrite whitelist_loop_elem_of. split; [auto|]. by intros [?|?]. }
  split; [apply Hiff|].
  intros token. unfold isVideoIframe.
  destruct (Data token =? "iframe"); [|discriminate].
  induction (Attr token) as [|attribute attributes IH]; cbn [firstSrcDomain];
    [discriminate|].
  destruct (String.eqb_spec (Key attribute) "src") as [Hkey|_].
  - intros Hvideo%videoWhitelist_lookup. exists attribute.
    split_and!; [left|done|]. intros base. apply Hiff. by right.
  - intros (attribute' & Hin & Hrest)%IH. exists attribute'.
    split; [by right|done].
Qed.

(** X11: what is written for a text token and for an attribute value
    holds no angle bracket, no quote and no carriage return: text cannot
    open a tag, and a value cannot end its attribute. *)
Theorem escaped_text_has_no_markup (value : string) :
  noMarkup (Go.EscapeString value) = true ∧
  (∀ key, formatAttribute key value =
          key ++ "=" ++ Go.dq ++ Go.EscapeString value ++ Go.dq) ∧
  (∀ baseURL st token,
     Type_ token = TextToken → Data token = value →
     step baseURL st token = st ∨
     step baseURL st token = WriteString st (Go.EscapeString value)).
Proof.
  split_and!.
  - induction value as [|c value IH]; [done|].
    cbn [Go.EscapeString]. by rewrite noMarkup_app, noMarkup_escapeByte, IH.
  - reflexivity.
  - intros baseURL st token Hty <-. unfold step. rewrite Hty.
    repeat case_match; auto.
Qed.

(** X12: the injected attributes of a tag are the last attributes of every
    tag that is emitted, after all source attributes: their names end the
    list of names and their markup ends the attribute string. *)
Theorem injected_attributes_come_last baseURL tagName attributes :
  ∃ names front,
    (sanitizeAttributes baseURL tagName attributes).1 =
      (names ++ (getExtraAttributes tagName).1)%list ∧
    (sanitizeAttributes baseURL tagName attributes).2 =
      front ++ Go.Join (getExtraAttributes tagName).2 " " ∧
    Forall (λ name, isValidAttribute tagName name = true) names.
Proof.
  rewrite sanitizeAttributes_spec. cbn [fst snd].
  exists (map fst (survivors baseURL tagName attributes)).
  assert (Forall (λ name, isValidAttribute tagName name = true)
            (map fst (survivors baseURL tagName attributes))) as Hvalid.
  { apply Forall_forall. intros name [[key value] [-> Hin]]%list_elem_of_fmap.
    apply elem_of_survivors in Hin as (attribute & _ & <- & Hsome).
    by eapply survivingValue_valid. }
  destruct (map (λ kv, formatAttribute kv.1 kv.2)
              (survivors baseURL tagName attributes)) as [|e html] eqn:Hhtml.
  - exists EmptyString. by rewrite append_nil_l.
  - destruct (getExtraAttributes tagName).2 as [|x extras] eqn:Hextras.
    + exists (Go.Join (e :: html) " "). by rewrite app_nil_r, append_nil_r.
    + exists (Go.Join (e :: html) " " ++ " ").
      by rewrite Join_app, append_assoc.
Qed.

(** X13: a srcset value without a comma followed by white space is one
    candidate, however many commas it has: candidates separated by bare
    commas are not told apart. *)
Theorem srcset_without_comma_space_is_one_candidate baseURL value :
  hasCommaSpace value = false →
  sanitizeSrcsetAttr baseURL value =
    default EmptyString (rewriteCandidate baseURL value).
Proof.
  intros Hnone. unfold sanitizeSrcsetAttr.
  rewrite splitCommaSpaces_single, srcsetLoop_spec by done.
  cbn [omap list_omap app]. by destruct (rewriteCandidate baseURL value).
Qed.

End MoreAttributes.

Lemma SplitN2_no_separator (s : string) (sep : ascii) :
  occurs sep s = false → Go.SplitN2 s sep = [s].
Proof.
  induction s as [|c s IH]; [done|]. cbn [occurs Go.SplitN2].
  intros [Hc Hs]%orb_false_iff. by rewrite Hc, IH.
Qed.

Lemma SplitN2_first_separator (s rest : string) (sep : ascii) :
  occurs sep s = false → Go.SplitN2 (s ++ String sep rest) sep = [s; rest].
Proof.
  induction s as [|c s IH]; intros Hs.
  - rewrite append_nil_l. cbn [Go.SplitN2]. by rewrite Ascii.eqb_refl.
  - cbn [occurs] in Hs. apply orb_false_iff in Hs as [Hc Hs].
    rewrite append_cons. cbn [Go.SplitN2]. by rewrite Hc, IH.
Qed.

Section MoreDispatcher.

Context {policy : Policy}.

(** X18: in the start-tag branch an iframe is closed at once and never
    pushed: what is written is the opening tag, the close tag, and around
    them the video wrapper exactly when the domain of the first [src] is a
    video domain. *)
Theorem iframe_start_tag_closes_itself baseURL st token :
  Type_ token = StartTagToken → Data token = "iframe" →
  isValidTag "iframe" = true →
  hasRequiredAttributes "iframe"
    (sanitizeAttributes baseURL "iframe" (Attr token)).1 = true →
  buffer (step baseURL st token) =
    buffer st ++
    (if isVideoIframe token then videoWrapperOpen else EmptyString) ++
    "<iframe " ++ (sanitizeAttributes baseURL "iframe" (Attr token)).2 ++ ">" ++
    "</iframe>" ++ (if isVideoIframe token then "</div>" else EmptyString) ∧
  tagStack (step baseURL st token) = tagStack st.
Proof.
  intros Hty Hname Hvalid Hreq.
  destruct (iframe_start_tag_is_closed baseURL st token Hty Hname Hvalid Hreq)
    as [Hbuffer Hstack].
  split; [|done]. rewrite Hbuffer.
  replace (0 <? length (sanitizeAttributes baseURL "iframe" (Attr token)).1)%nat
    with true; [by rewrite !append_assoc|].
  symmetry. apply Nat.ltb_lt. rewrite sanitizeAttributes_spec. cbn [fst].
  rewrite length_app. cbn. lia.
Qed.

(** X19: the depth counter is consulted for text tokens only: what a tag
    token writes, pushes and leaves as the most recent tag does not depend
    on the counter, so an allowed tag inside a blocked subtree is written. *)
Theorem tags_are_processed_at_any_depth baseURL st token depth :
  Type_ token ≠ TextToken →
  let st' := mkState (buffer st) (tagStack st) (parentTag st) depth in
  buffer (step baseURL st' token) = buffer (step baseURL st token) ∧
  tagStack (step baseURL st' token) = tagStack (step baseURL st token) ∧
  parentTag (step baseURL st' token) = parentTag (step baseURL st token).
Proof.
  intros Hty. unfold step. destruct (Type_ token); [done|..];
    cbn [buffer tagStack parentTag blacklistedTagDepth];
    repeat case_match;
    cbn [buffer tagStack parentTag blacklistedTagDepth WriteString];
    done.
Qed.

(** X20: the scheme that is looked up in the allowlist is what precedes
    the first colon of the URL, byte for byte; for a URL without a colon it
    is the whole URL. *)
Theorem scheme_is_text_before_first_colon (scheme rest : string) :
  occurs ":" scheme = false →
  hasValidURIScheme (scheme ++ ":" ++ rest) = has allowedURISchemes scheme ∧
  hasValidURIScheme scheme = has allowedURISchemes scheme.
Proof.
  intros Hscheme. unfold hasValidURIScheme.
  change (":" ++ rest) with (String ":" rest).
  by rewrite SplitN2_first_separator, SplitN2_no_separator.
Qed.

End MoreDispatcher.

(** ** The authentication middleware *)

Section Middleware.

Import Auth.

Variable IsAuthenticated : Request → string → string → bool.
Variable StringsEqual : string → string → bool.

Local Abbreviation Handler := (Auth.Handler IsAuthenticated StringsEqual).

(** X14: the request is passed on exactly when its path starts with the
    public prefix or when it is authenticated; nothing else is done then. *)
Theorem request_passes_iff_public_or_authenticated (m : Middleware) (req : Request) :
  (Next ∈ Handler m req ↔
   Go.HasPrefix (Path req) (BasePath m ++ Public m) = true ∨
   IsAuthenticated req (Username m) (Password m) = true) ∧
  (Next ∈ Handler m req → Handler m req = [Next]).
Proof.
  unfold Auth.Handler.
  destruct (Go.HasPrefix (Path req) (BasePath m ++ Public m)).
  { split; [|done]. split; [by left|]. intros _. left. }
  destruct (IsAuthenticated req (Username m) (Password m)).
  { split; [|done]. split; [by right|]. intros _. left. }
  assert (∀ l : list Effect,
            Forall (λ e, e ≠ Next) l →
            (Next ∈ l ↔ false = true ∨ false = true) ∧ (Next ∈ l → l = [Next]))
    as Hnot.
  { intros l Hl. rewrite Forall_forall in Hl. split.
    - split; [intros Hin; by destruct (Hl _ Hin)|by intros [?|?]].
    - intros Hin. by destruct (Hl _ Hin). }
  apply Hnot. repeat case_match; repeat constructor; discriminate.
Qed.

(** X15: a request that is neither public nor authenticated and whose path
    is not the root of the application is answered with status 401 and
    nothing else, whatever its method and form values. *)
Theorem other_path_is_unauthorized (m : Middleware) (req : Request) :
  Go.HasPrefix (Path req) (BasePath m ++ Public m) = false →
  IsAuthenticated req (Username m) (Password m) = false →
  Path req ≠ BasePath m ++ "/" →
  Handler m req = [WriteHeader 401].
Proof.
  intros Hpublic Hauth Hpath. unfold Auth.Handler.
  rewrite Hpublic, Hauth. apply String.eqb_neq in Hpath. by rewrite Hpath.
Qed.

(** X16: the session is opened only by a POST to the root path, from a
    request that is neither public nor authenticated, whose username and
    password form values both match; it is opened for the configured
    user and followed by a redirect to the root. *)
Theorem session_is_opened_only_by_matching_login (m : Middleware) (req : Request)
    (username password basePath : string) :
  Authenticate username password basePath ∈ Handler m req →
  Path req = BasePath m ++ "/" ∧ Method req = "POST" ∧
  StringsEqual (FormValue req "username") (Username m) = true ∧
  StringsEqual (FormValue req "password") (Password m) = true ∧
  IsAuthenticated req (Username m) (Password m) = false ∧
  Handler m req =
    [Authenticate (Username m) (Password m) (BasePath m);
     Redirect (BasePath m ++ "/")].
Proof.
  unfold Auth.Handler.
  destruct (Go.HasPrefix (Path req) (BasePath m ++ Public m));
    [by intros [=]%list_elem_of_singleton|].
  destruct (IsAuthenticated req (Username m) (Password m));
    [by intros [=]%list_elem_of_singleton|].
  destruct (String.eqb_spec (Path req) (BasePath m ++ "/")) as [Hpath|_];
    cbn [negb]; [|by intros [=]%list_elem_of_singleton].
  destruct (String.eqb_spec (Method req) "POST") as [Hmethod|_];
    [|by intros [=]%list_elem_of_singleton].
  destruct (StringsEqual (FormValue req "username") (Username m));
    cbn [andb]; [|by intros [=]%list_elem_of_singleton].
  destruct (StringsEqual (FormValue req "password") (Password m));
    [|by intros [=]%list_elem_of_singleton].
  done.
Qed.

(** X17: the public area is a plain prefix of the path: every path that
    extends the base path and the public prefix is passed on without any
    authentication, whatever follows; with an empty base path and public
    prefix, every request is. *)
Theorem public_prefix_passes_unauthenticated (m : Middleware) (req : Request)
    (rest : string) :
  Path req = (BasePath m ++ Public m) ++ rest →
  Handler m req = [Next].
Proof.
  intros Hpath. unfold Auth.Handler, Go.HasPrefix.
  by rewrite Hpath, prefix_app.
Qed.

End Middleware.

(** ** The sanitizer under the reference policy *)

Section Examples.

Local Existing Instance Reference.policy.

Local Abbreviation base := "https://ex.com".
Local Abbreviation Sanitize := (Sanitize Tokenizer.tokenize).

Lemma reference_safeNames : safeNames Reference.policy.
Proof. unfold safeNames. split_and!; compute_done. Qed.

Lemma reference_injected_names tagName name :
  name ∈ (getExtraAttributes tagName).1 →
  isValidAttribute tagName name = false.
Proof.
  unfold getExtraAttributes.
  case_tag_name tagName;
    cbn [orb fst]; intros Hin;
    repeat (apply elem_of_cons in Hin as [->|Hin]);
    try (by apply elem_of_nil in Hin); vm_compute; reflexivity.
Qed.

(** The injected attributes are what the tokenizer reads back from the
    markup that is emitted for them. *)
Lemma injected_attributes_read_back tagName :
  Tokenizer.readAttributes Tokenizer.BeforeKey false []
    (" " ++ Go.Join (getExtraAttributes tagName).2 " " ++ ">") =
  Some (injectedAttributes tagName, false, EmptyString).
Proof.
  unfold injectedAttributes, getExtraAttributes.
  repeat case_match; vm_compute; reflexivity.
Qed.

(** The scenarios of the spec. *)
Example scenario_script :
  Sanitize base "<script>alert(1)</script><p>hi</p>" = "<p>hi</p>".
Proof. vm_compute. reflexivity. Qed.

Example scenario_link :
  Sanitize base ("<a href=" ++ Go.quoted "/x" ++ ">l</a>") =
    "<a href=" ++ Go.quoted "https://ex.com/x" ++
    " rel=" ++ Go.quoted "noopener noreferrer" ++
    " target=" ++ Go.quoted "_blank" ++
    " referrerpolicy=" ++ Go.quoted "no-referrer" ++ ">l</a>".
Proof. vm_compute. reflexivity. Qed.

Example scenario_img :
  Sanitize base ("<img src=" ++ Go.quoted "javascript:evil()" ++ ">") = EmptyString.
Proof. vm_compute. reflexivity. Qed.

Example scenario_video_iframe :
  Sanitize base
    ("<iframe src=" ++ Go.quoted "https://www.youtube.com/embed/1" ++ "></iframe>") =
    "<div class=" ++ Go.quoted "video-wrapper" ++ ">" ++
    "<iframe src=" ++ Go.quoted "https://www.youtube.com/embed/1" ++
    " sandbox=" ++ Go.quoted "allow-scripts allow-same-origin allow-popups" ++
    " loading=" ++ Go.quoted "lazy" ++ "></iframe></div>".
Proof. vm_compute. reflexivity. Qed.

Example scenario_srcset :
  sanitizeSrcsetAttr base "a.jpg 1x, bad, b.jpg 2x" =
    "https://ex.com/a.jpg 1x, https://ex.com/bad, https://ex.com/b.jpg 2x".
Proof. vm_compute. reflexivity. Qed.

(** C3: the close tag of a blocked subtree that was never opened takes
    the depth counter to -1; the next blocked subtree only takes it back to
    0, and its text is written to the output. *)
Theorem stray_close_tag_makes_depth_negative :
  blacklistedTagDepth
    (run base initial [tok EndTagToken "script" []]) =
    (-1)%Z ∧
  tokens (Tokenizer.tokenize "</script><script>alert(1)</script>") =
    [tok EndTagToken "script" []; tok StartTagToken "script" [];
     tok TextToken "alert(1)" []; tok EndTagToken "script" []] ∧
  Sanitize base "</script><script>alert(1)</script>" = "alert(1)" ∧
  Sanitize base "<script>alert(1)</script>" = EmptyString.
Proof. vm_compute. split_and!; reflexivity. Qed.

(** C5: a self-closing iframe token is written as a self-closed tag: no
    close tag follows it and no wrapper surrounds it, although its domain
    is a video domain; the start-tag token of the same iframe is closed
    and wrapped. *)
Theorem self_closing_iframe_is_not_closed :
  tokens
    (Tokenizer.tokenize
       ("<iframe src=" ++ Go.quoted "https://www.youtube.com/embed/1" ++ "/>")) =
    [tok SelfClosingTagToken "iframe" [("src", "https://www.youtube.com/embed/1")]] ∧
  Sanitize base ("<iframe src=" ++ Go.quoted "https://www.youtube.com/embed/1" ++ "/>") =
    "<iframe src=" ++ Go.quoted "https://www.youtube.com/embed/1" ++
    " sandbox=" ++ Go.quoted "allow-scripts allow-same-origin allow-popups" ++
    " loading=" ++ Go.quoted "lazy" ++ "/>" ∧
  isVideoIframe
    (tok SelfClosingTagToken "iframe" [("src", "https://www.youtube.com/embed/1")]) =
    true ∧
  Sanitize base ("<iframe src=" ++ Go.quoted "https://www.youtube.com/embed/1" ++ ">") =
    "<div class=" ++ Go.quoted "video-wrapper" ++ ">" ++
    "<iframe src=" ++ Go.quoted "https://www.youtube.com/embed/1" ++
    " sandbox=" ++ Go.quoted "allow-scripts allow-same-origin allow-popups" ++
    " loading=" ++ Go.quoted "lazy" ++ "></iframe></div>".
Proof. vm_compute. split_and!; reflexivity. Qed.

(** C2 as stated fails: the [src] of an iframe is emitted as it is when
    its domain is allowed, here without any scheme. *)
Lemma iframe_src_without_scheme :
  tokens
    (Tokenizer.tokenize ("<iframe src=" ++ Go.quoted "//www.youtube.com/embed/1" ++ ">")) =
    [tok StartTagToken "iframe" [("src", "//www.youtube.com/embed/1")]] ∧
  Sanitize base ("<iframe src=" ++ Go.quoted "//www.youtube.com/embed/1" ++ ">") =
    "<div class=" ++ Go.quoted "video-wrapper" ++ ">" ++
    "<iframe src=" ++ Go.quoted "//www.youtube.com/embed/1" ++
    " sandbox=" ++ Go.quoted "allow-scripts allow-same-origin allow-popups" ++
    " loading=" ++ Go.quoted "lazy" ++ "></iframe></div>" ∧
  survivors base "iframe"
    [mkAttribute EmptyString "src" "//www.youtube.com/embed/1"] =
    [("src", "//www.youtube.com/embed/1")] ∧
  hasValidURIScheme "//www.youtube.com/embed/1" = false ∧
  isValidDataAttribute "//www.youtube.com/embed/1" = false.
Proof. vm_compute. split_and!; reflexivity. Qed.

(** C6 as stated fails: the children of a dropped tag are not processed as
    if the tag were absent when the tag is an iframe: its text is dropped. *)
Lemma dropped_iframe_suppresses_its_text :
  tokens (Tokenizer.tokenize "<iframe>x</iframe>") =
    [tok StartTagToken "iframe" []; tok TextToken "x" [];
     tok EndTagToken "iframe" []] ∧
  isValidTag "iframe" = true ∧
  hasRequiredAttributes "iframe" (sanitizeAttributes base "iframe" []).1 = false ∧
  Sanitize base "<iframe>x</iframe>" = EmptyString ∧
  Sanitize base "x" = "x".
Proof. vm_compute. split_and!; reflexivity. Qed.

(** C8 as stated fails: the text after a dropped start tag that follows an
    iframe is written by the first pass and dropped by the second, for
    which it follows the iframe. *)
Lemma Sanitize_not_idempotent :
  tokens
    (Tokenizer.tokenize
       ("<iframe src=" ++ Go.quoted "https://soundcloud.com/p" ++ "></iframe><foo>hello")) =
    [tok StartTagToken "iframe" [("src", "https://soundcloud.com/p")];
     tok EndTagToken "iframe" []; tok StartTagToken "foo" [];
     tok TextToken "hello" []] ∧
  tokens
    (Tokenizer.tokenize
       ("<iframe src=" ++ Go.quoted "https://soundcloud.com/p" ++
        " sandbox=" ++ Go.quoted "allow-scripts allow-same-origin allow-popups" ++
        " loading=" ++ Go.quoted "lazy" ++ "></iframe>hello")) =
    [tok StartTagToken "iframe"
       [("src", "https://soundcloud.com/p");
        ("sandbox", "allow-scripts allow-same-origin allow-popups");
        ("loading", "lazy")];
     tok EndTagToken "iframe" []; tok TextToken "hello" []] ∧
  Sanitize base
    ("<iframe src=" ++ Go.quoted "https://soundcloud.com/p" ++ "></iframe><foo>hello") =
    "<iframe src=" ++ Go.quoted "https://soundcloud.com/p" ++
    " sandbox=" ++ Go.quoted "allow-scripts allow-same-origin allow-popups" ++
    " loading=" ++ Go.quoted "lazy" ++ "></iframe>hello" ∧
  Sanitize base
    (Sanitize base
       ("<iframe src=" ++ Go.quoted "https://soundcloud.com/p" ++ "></iframe><foo>hello")) =
    "<iframe src=" ++ Go.quoted "https://soundcloud.com/p" ++
    " sandbox=" ++ Go.quoted "allow-scripts allow-same-origin allow-popups" ++
    " loading=" ++ Go.quoted "lazy" ++ "></iframe>" ∧
  Sanitize base
    (Sanitize base
       ("<iframe src=" ++ Go.quoted "https://soundcloud.com/p" ++ "></iframe><foo>hello")) ≠
  Sanitize base
    ("<iframe src=" ++ Go.quoted "https://soundcloud.com/p" ++ "></iframe><foo>hello").
Proof. vm_compute. split_and!; [reflexivity..|discriminate]. Qed.

(** Idempotence also fails on an attribute value that the second pass
    rewrites again: of a srcset candidate of three parts only the URL is
    written, with the no-break space that ended it, which the second pass
    trims.  The first input is the one of [Sanitize_not_idempotent], in
    which text follows the iframe that the first pass wrote. *)
Lemma second_pass_conditions_are_needed :
  textFollowsIframe EmptyString
    (writtenTokens base initial
       (tokens
          (Tokenizer.tokenize
             ("<iframe src=" ++ Go.quoted "https://soundcloud.com/p" ++
              "></iframe><foo>hello")))) = true ∧
  forallb (resanitizable base)
    (tokens
       (Tokenizer.tokenize
          ("<img src=" ++ Go.quoted "/a.png" ++ " srcset=" ++
           Go.quoted ("data:x" ++ String "194" (String "160" " 1x 2x")) ++ ">"))) =
    false ∧
  Sanitize base
    ("<img src=" ++ Go.quoted "/a.png" ++ " srcset=" ++
     Go.quoted ("data:x" ++ String "194" (String "160" " 1x 2x")) ++ ">") =
    "<img src=" ++ Go.quoted "https://ex.com/a.png" ++ " srcset=" ++
    Go.quoted ("data:x" ++ String "194" (String "160" EmptyString)) ++
    " loading=" ++ Go.quoted "lazy" ++ ">" ∧
  Sanitize base
    (Sanitize base
       ("<img src=" ++ Go.quoted "/a.png" ++ " srcset=" ++
        Go.quoted ("data:x" ++ String "194" (String "160" " 1x 2x")) ++ ">")) =
    "<img src=" ++ Go.quoted "https://ex.com/a.png" ++ " srcset=" ++
    Go.quoted "data:x" ++ " loading=" ++ Go.quoted "lazy" ++ ">".
Proof. vm_compute. split_and!; reflexivity. Qed.

(** C7 as stated fails: a valid descriptor is kept only as the second of
    exactly two parts.  With a third part after it the descriptor [100w]
    is dropped and the URL alone is written. *)
Lemma srcset_descriptor_is_dropped_before_a_third_part :
  isValidWidthOrDensityDescriptor "100w" = true ∧
  sanitizeSrcsetAttr base "a.jpg 100w" = "https://ex.com/a.jpg 100w" ∧
  sanitizeSrcsetAttr base "a.jpg 100w 2x" = "https://ex.com/a.jpg" ∧
  Sanitize base
    ("<img src=" ++ Go.quoted "/a.png" ++ " srcset=" ++
     Go.quoted "a.jpg 100w 2x" ++ ">") =
    "<img src=" ++ Go.quoted "https://ex.com/a.png" ++ " srcset=" ++
    Go.quoted "https://ex.com/a.jpg" ++ " loading=" ++ Go.quoted "lazy" ++ ">".
Proof. vm_compute. split_and!; reflexivity. Qed.

(** *** The theorems at the reference policy *)

Lemma no_blocked_tag_in_output_witness :
  safeNames Reference.policy ∧
  Go.Contains (Sanitize base "<script>alert(1)</script><p>hi</p>") "<script" = false ∧
  Go.Contains (Sanitize base "<script>alert(1)</script><p>hi</p>") "<style" = false ∧
  Go.Contains (Sanitize base "<script>alert(1)</script><p>hi</p>") "<noscript" = false.
Proof.
  split; [exact reference_safeNames|].
  exact (no_blocked_tag_in_output reference_safeNames Tokenizer.tokenize base
           "<script>alert(1)</script><p>hi</p>").
Defined.

Lemma emitted_resource_values_witness :
  ("a" = "iframe" ∧
   isValidIframeSource base "https://ex.com/x" = true) ∨
  ("a" = "img" ∧ "href" = "src" ∧ isValidDataAttribute "https://ex.com/x" = true) ∨
  ("a" ≠ "iframe" ∧ "https://ex.com/x" ≠ EmptyString ∧
   hasValidURIScheme "https://ex.com/x" = true ∧
   isBlockedResource "https://ex.com/x" = false).
Proof.
  refine (proj2 (proj2 (emitted_resource_values
                          base "a" [mkAttribute EmptyString "href" "/x"]))
            "href" "https://ex.com/x" _ _).
  - vm_compute. left.
  - reflexivity.
Defined.

Lemma tag_without_required_attribute_witness :
  step base initial (tok StartTagToken "img" [("src", "javascript:evil()")]) =
    mkState EmptyString [] "img" 0.
Proof.
  refine (proj1 (tag_without_required_attribute base initial
                   (tok StartTagToken "img" [("src", "javascript:evil()")]) _ _) _).
  - left. reflexivity.
  - vm_compute. reflexivity.
  - right; right; left. split; [reflexivity|]. compute_done.
Defined.


Lemma text_after_iframe_is_dropped_witness :
  step base
    (run base initial
       [tok StartTagToken "iframe" [("src", "https://soundcloud.com/p")];
        tok EndTagToken "iframe" []])
    (tok TextToken "hello" []) =
  run base initial
    [tok StartTagToken "iframe" [("src", "https://soundcloud.com/p")];
     tok EndTagToken "iframe" []].
Proof.
  refine (proj2 (text_after_iframe_is_dropped base)
            initial (tok StartTagToken "iframe" [("src", "https://soundcloud.com/p")])
            [tok EndTagToken "iframe" []] (tok TextToken "hello" []) _ _ _ _).
  - reflexivity.
  - reflexivity.
  - repeat constructor.
  - reflexivity.
Defined.

Lemma srcset_is_rewritten_by_candidate_witness :
  sanitizeSrcsetAttr base "a.jpg 100w,  data:x 2x , b.jpg 1x 2x, c.jpg 7" =
    "https://ex.com/a.jpg 100w, data:x 2x, https://ex.com/b.jpg, https://ex.com/c.jpg".
Proof.
  rewrite (proj2 (srcset_is_rewritten_by_candidate base _)
             ["a.jpg 100w"; "data:x 2x "; "b.jpg 1x 2x"; "c.jpg 7"]
             [["a.jpg"; "100w"]; ["data:x"; "2x"]; ["b.jpg"; "1x"; "2x"]; ["c.jpg"; "7"]]).
  - vm_compute. reflexivity.
  - exact (splitCommaSpaces_splitsInto _).
  - repeat constructor; exact (TrimSpace_Split_parts _).
Defined.

Lemma second_pass_writes_the_same_witness :
  Sanitize base
    ("a<foo>b<iframe src=" ++ Go.quoted "https://www.youtube.com/embed/1" ++
     "></iframe><p>c<foo>d</p><iframe src=" ++
     Go.quoted "https://soundcloud.com/p" ++ "></iframe><a href=" ++
     Go.quoted "/x" ++ ">l</a>") =
    "ab<div class=" ++ Go.quoted "video-wrapper" ++ "><iframe src=" ++
    Go.quoted "https://www.youtube.com/embed/1" ++
    " sandbox=" ++ Go.quoted "allow-scripts allow-same-origin allow-popups" ++
    " loading=" ++ Go.quoted "lazy" ++ "></iframe></div><p>cd</p><iframe src=" ++
    Go.quoted "https://soundcloud.com/p" ++
    " sandbox=" ++ Go.quoted "allow-scripts allow-same-origin allow-popups" ++
    " loading=" ++ Go.quoted "lazy" ++ "></iframe><a href=" ++
    Go.quoted "https://ex.com/x" ++ " rel=" ++ Go.quoted "noopener noreferrer" ++
    " target=" ++ Go.quoted "_blank" ++ " referrerpolicy=" ++
    Go.quoted "no-referrer" ++ ">l</a>" ∧
  Sanitize base
    (Sanitize base
       ("a<foo>b<iframe src=" ++ Go.quoted "https://www.youtube.com/embed/1" ++
        "></iframe><p>c<foo>d</p><iframe src=" ++
        Go.quoted "https://soundcloud.com/p" ++ "></iframe><a href=" ++
        Go.quoted "/x" ++ ">l</a>")) =
  Sanitize base
    ("a<foo>b<iframe src=" ++ Go.quoted "https://www.youtube.com/embed/1" ++
     "></iframe><p>c<foo>d</p><iframe src=" ++
     Go.quoted "https://soundcloud.com/p" ++ "></iframe><a href=" ++
     Go.quoted "/x" ++ ">l</a>").
Proof.
  split; [vm_compute; reflexivity|].
  apply second_pass_writes_the_same.
  - apply reference_injected_names.
  - vm_compute; reflexivity.
  - vm_compute; reflexivity.
  - vm_compute; reflexivity.
  - vm_compute; reflexivity.
  - vm_compute; reflexivity.
Defined.

End Examples.

(** ** The further properties at the reference policy *)

Section MoreExamples.

Local Existing Instance Reference.policy.

Local Abbreviation base := "https://ex.com".

Lemma blocked_subtree_is_suppressed_witness :
  run base initial
    (tok StartTagToken "script" [] ::
     [tok TextToken "alert(1)" []] ++ [tok EndTagToken "script" []]) =
    mkState EmptyString [] "script" 0.
Proof.
  apply (blocked_subtree_is_suppressed base initial
           (tok StartTagToken "script" []) [tok TextToken "alert(1)" []]
           (tok EndTagToken "script" [])).
  - reflexivity.
  - reflexivity.
  - reflexivity.
  - reflexivity.
  - vm_compute. reflexivity.
  - vm_compute. reflexivity.
  - repeat constructor.
  - cbn. lia.
Defined.

Lemma end_tag_without_start_tag_writes_nothing_witness :
  buffer (step base (run base initial [tok StartTagToken "p" []])
            (tok EndTagToken "h1" [])) =
    buffer (run base initial [tok StartTagToken "p" []]).
Proof.
  apply (end_tag_without_start_tag_writes_nothing base
           [tok StartTagToken "p" []] (tok EndTagToken "h1" [])).
  - reflexivity.
  - repeat constructor. intros [_ Hname]. discriminate Hname.
Defined.

Lemma depth_is_bounded_by_stream_length_witness :
  (Z.abs (blacklistedTagDepth (run base initial [tok EndTagToken "script" []])) ≤
   Z.abs (blacklistedTagDepth initial) + Z.of_nat 1)%Z.
Proof.
  apply (depth_is_bounded_by_stream_length base initial [tok EndTagToken "script" []]).
  cbn. lia.
Defined.

Lemma required_attributes_in_any_map_order_witness :
  hasRequiredAttributesIn (rev elements) "source" ["srcset"] =
    hasRequiredAttributes "source" ["srcset"].
Proof.
  apply required_attributes_in_any_map_order.
  symmetry. apply Permutation_rev.
Defined.

Lemma srcset_always_survives_witness :
  survivingValue base "source" (mkAttribute EmptyString "srcset" "a.jpg 1x") =
    Some (if ("source" =? "img") || ("source" =? "source")
          then sanitizeSrcsetAttr base "a.jpg 1x" else "a.jpg 1x").
Proof.
  refine (proj1 (srcset_always_survives base "source" EmptyString "a.jpg 1x" _)).
  vm_compute. reflexivity.
Defined.


Lemma blocked_resource_is_dropped_witness :
  isBlockedResource ("http://" ++ "feeds.feedburner.com" ++ "/x") = true ∧
  survivingValue base "a"
    (mkAttribute EmptyString "href" "http://feeds.feedburner.com/x") = None.
Proof.
  apply (blocked_resource_is_dropped base "a"
           (mkAttribute EmptyString "href" "http://feeds.feedburner.com/x")
           "feeds.feedburner.com" "http://" "/x").
  - repeat constructor.
  - reflexivity.
  - discriminate.
  - intros [Htag _]. discriminate Htag.
  - vm_compute. reflexivity.
Defined.

Lemma iframe_source_is_checked_by_domain_witness :
  ∃ attribute,
    attribute ∈ Attr (tok StartTagToken "iframe"
                        [("src", "https://www.youtube.com/embed/1")]) ∧
    Key attribute = "src" ∧
    ∀ other, isValidIframeSource other (Val attribute) = true.
Proof.
  refine (proj2 (iframe_source_is_checked_by_domain base EmptyString)
            (tok StartTagToken "iframe" [("src", "https://www.youtube.com/embed/1")]) _).
  vm_compute. reflexivity.
Defined.

Lemma escaped_text_has_no_markup_witness :
  step base initial (tok TextToken "<b>" []) = initial ∨
  step base initial (tok TextToken "<b>" []) =
    WriteString initial (Go.EscapeString "<b>").
Proof.
  refine (proj2 (proj2 (escaped_text_has_no_markup "<b>"))
            base initial (tok TextToken "<b>" []) _ _); reflexivity.
Defined.

Lemma srcset_without_comma_space_is_one_candidate_witness :
  sanitizeSrcsetAttr base "a.jpg 1x,b.jpg 2x" =
    default EmptyString (rewriteCandidate base "a.jpg 1x,b.jpg 2x").
Proof.
  apply srcset_without_comma_space_is_one_candidate. reflexivity.
Defined.

Lemma iframe_start_tag_closes_itself_witness :
  buffer (step base initial
            (tok StartTagToken "iframe" [("src", "https://soundcloud.com/p")])) =
    buffer initial ++
    (if isVideoIframe (tok StartTagToken "iframe" [("src", "https://soundcloud.com/p")])
     then videoWrapperOpen else EmptyString) ++
    "<iframe " ++
    (sanitizeAttributes base "iframe"
       (Attr (tok StartTagToken "iframe" [("src", "https://soundcloud.com/p")]))).2 ++
    ">" ++ "</iframe>" ++
    (if isVideoIframe (tok StartTagToken "iframe" [("src", "https://soundcloud.com/p")])
     then "</div>" else EmptyString) ∧
  tagStack (step base initial
              (tok StartTagToken "iframe" [("src", "https://soundcloud.com/p")])) =
    tagStack initial.
Proof.
  apply iframe_start_tag_closes_itself.
  - reflexivity.
  - reflexivity.
  - vm_compute. reflexivity.
  - vm_compute. reflexivity.
Defined.

Lemma tags_are_processed_at_any_depth_witness :
  buffer (step base (mkState EmptyString [] EmptyString 1) (tok StartTagToken "p" [])) =
    buffer (step base initial (tok StartTagToken "p" [])) ∧
  tagStack (step base (mkState EmptyString [] EmptyString 1) (tok StartTagToken "p" [])) =
    tagStack (step base initial (tok StartTagToken "p" [])) ∧
  parentTag (step base (mkState EmptyString [] EmptyString 1) (tok StartTagToken "p" [])) =
    parentTag (step base initial (tok StartTagToken "p" [])).
Proof.
  apply (tags_are_processed_at_any_depth base initial (tok StartTagToken "p" []) 1).
  discriminate.
Defined.

Lemma scheme_is_text_before_first_colon_witness :
  hasValidURIScheme ("https" ++ ":" ++ "//ex.com/x") = has allowedURISchemes "https" ∧
  hasValidURIScheme "https" = has allowedURISchemes "https".
Proof. apply scheme_is_text_before_first_colon. reflexivity. Defined.

(** A middleware and requests: no session cookie is ever valid, and strings
    are compared byte by byte. *)
Local Abbreviation noSession := (λ (_ : Auth.Request) (_ _ : string), false).
Local Abbreviation yarr := (Auth.mkMiddleware "admin" "secret" EmptyString "/static").
Local Abbreviation request path method username password :=
  (Auth.mkRequest path method
     (λ key, if key =? "username" then username
             else if key =? "password" then password else EmptyString)
     (λ _, None)).

Lemma request_passes_iff_public_or_authenticated_witness :
  Auth.Handler noSession String.eqb yarr
    (request "/static/app.js" "GET" EmptyString EmptyString) = [Auth.Next].
Proof.
  apply (proj2 (request_passes_iff_public_or_authenticated noSession String.eqb yarr
                  (request "/static/app.js" "GET" EmptyString EmptyString))).
  vm_compute. left.
Defined.

Lemma other_path_is_unauthorized_witness :
  Auth.Handler noSession String.eqb yarr
    (request "/api/feeds" "GET" EmptyString EmptyString) = [Auth.WriteHeader 401].
Proof.
  apply other_path_is_unauthorized.
  - reflexivity.
  - reflexivity.
  - discriminate.
Defined.

Lemma session_is_opened_only_by_matching_login_witness :
  Auth.Path (request "/" "POST" "admin" "secret") = Auth.BasePath yarr ++ "/" ∧
  Auth.Method (request "/" "POST" "admin" "secret") = "POST" ∧
  (Auth.FormValue (request "/" "POST" "admin" "secret") "username" =?
   Auth.Username yarr) = true ∧
  (Auth.FormValue (request "/" "POST" "admin" "secret") "password" =?
   Auth.Password yarr) = true ∧
  noSession (request "/" "POST" "admin" "secret")
    (Auth.Username yarr) (Auth.Password yarr) = false ∧
  Auth.Handler noSession String.eqb yarr (request "/" "POST" "admin" "secret") =
    [Auth.Authenticate (Auth.Username yarr) (Auth.Password yarr) (Auth.BasePath yarr);
     Auth.Redirect (Auth.BasePath yarr ++ "/")].
Proof.
  apply (session_is_opened_only_by_matching_login noSession String.eqb yarr
           (request "/" "POST" "admin" "secret") "admin" "secret" EmptyString).
  vm_compute. left.
Defined.

Lemma public_prefix_passes_unauthenticated_witness :
  Auth.Handler noSession String.eqb yarr
    (request "/staticfoo" "DELETE" EmptyString EmptyString) = [Auth.Next].
Proof.
  apply (public_prefix_passes_unauthenticated noSession String.eqb yarr
           (request "/staticfoo" "DELETE" EmptyString EmptyString) "foo").
  reflexivity.
Defined.

End MoreExamples.
